(** * Digital Flora: gesture interpreter and particle construction kernel

    A shallow embedding of [App.tsx] (hand-gesture interpreter),
    [components/Rose.tsx] (particle generator, vertex shader, scan plane)
    and [components/RoseExperience.tsx] (how the distortion cursor reaches
    the flower), with the properties of the design document stated and
    proved over it.

    Numbers are modelled as mathematical reals: JavaScript numbers and GLSL
    floats are read as the real numbers they approximate, so rounding, NaN
    and infinities are outside the model.  The one place where rounding
    decides, the repeated auto-snap of growth, is also followed on IEEE
    doubles ([App64]). *)

From Stdlib Require Import Reals Lra Lia List Bool ZArith.
From Stdlib Require String.
From Stdlib Require Floats.

Set Warnings "-abstract-large-number,-inexact-float".
Import ListNotations.

Open Scope R_scope.

(** ** Comparisons on reals as booleans *)

Definition ltb (a b : R) : bool := if Rlt_dec a b then true else false.
Definition gtb (a b : R) : bool := ltb b a.
Definition neqb (a b : R) : bool := if Req_dec_T a b then false else true.

(** Decides every real comparison in the goal, keeping the facts. *)
Ltac cases_R :=
  unfold gtb, ltb, neqb in *;
  repeat (match goal with
          | |- context [Rlt_dec ?a ?b] => destruct (Rlt_dec a b)
          | |- context [Req_dec_T ?a ?b] => destruct (Req_dec_T a b)
          | H : context [Rlt_dec ?a ?b] |- _ => destruct (Rlt_dec a b)
          end; cbv iota in *).

(** ** The parts of JavaScript's [Math] and of three.js that the code calls *)

Module JSMath.
(** [Math.hypot(a, b)] *)
Definition hypot (a b : R) : R := sqrt (a * a + b * b).
(** [THREE.MathUtils.lerp(x, y, t)] is [(1 - t) * x + t * y]. *)
Definition lerp (x y t : R) : R := (1 - t) * x + t * y.
End JSMath.

(** * App.tsx: the gesture interpreter *)

Module App.

(** A normalized landmark of the hand detector: [{x, y}]. *)
Record Landmark := { lx : R; ly : R }.

(** One detected hand: the array of its landmarks. *)
Definition Hand := list Landmark.

(** [distortionRef.current]: [{x, y, active}]. *)
Record Distortion := { x : R; y : R; active : bool }.

(** The refs and UI state written by [predictWebcam]. *)
Record Gesture := {
  growthRef : R;
  distortionRef : Distortion;
  isPinching : bool;
  isDistorting : bool
}.

(** Skeleton edges drawn by [drawHand]. *)
Definition CONNECTIONS : list (nat * nat) :=
  [ (0, 1); (1, 2); (2, 3); (3, 4);
    (0, 5); (5, 6); (6, 7); (7, 8);
    (5, 9); (9, 10); (10, 11); (11, 12);
    (9, 13); (13, 14); (14, 15); (15, 16);
    (13, 17); (17, 18); (18, 19); (19, 20);
    (0, 17); (5, 9); (9, 13); (13, 17) ]%nat.

(** [drawHand] only paints; the one thing it can do to the control signals
    is to throw, which happens when [landmarks[start]] or [landmarks[end]]
    of some connection is [undefined]. *)
Definition drawHand (landmarks : Hand) : bool :=
  forallb (fun c => (fst c <? length landmarks)%nat && (snd c <? length landmarks)%nat)
          CONNECTIONS.

(** The result of a block inside [try]: it ran to its end, or it threw and
    the state is the one reached at the throw. *)
Inductive Outcome := Done (s : Gesture) | Thrown (s : Gesture).

Definition caught (o : Outcome) : Gesture :=
  match o with Done s => s | Thrown s => s end.

(** [landmarks[4]] and [landmarks[8]]; reading [.x] of a missing one throws. *)
Definition tips (landmarks : Hand) : option (Landmark * Landmark) :=
  match nth_error landmarks 4, nth_error landmarks 8 with
  | Some thumb, Some index => Some (thumb, index)
  | _, _ => None
  end.

Definition aspectRatio : R := 640 / 480.

(** [Math.hypot((thumb.x - index.x) * aspectRatio, thumb.y - index.y)] *)
Definition dist (thumb index : Landmark) : R :=
  JSMath.hypot ((lx thumb - lx index) * aspectRatio) (ly thumb - ly index).

(** [dist < 0.06] *)
Definition pinching (thumb index : Landmark) : bool := ltb (dist thumb index) 0.06.

Definition minY : R := 0.2.
Definition maxY : R := 0.8.

(** [targetGrowth] after the clamp and the two snapping statements. *)
Definition targetGrowth (pinchY : R) : R :=
  let rawProgress := (pinchY - minY) / (maxY - minY) in
  let t0 := Rmax 0 (Rmin 1 rawProgress) in
  let t1 := if gtb t0 0.85 then 1.0 else t0 in
  if ltb t1 0.15 then 0.0 else t1.

(** [g += (target - g) * k] *)
Definition ease (k target g : R) : R := g + (target - g) * k.

(** The growth statement of the hand-0 block, for a hand that is present. *)
Definition updateGrowth (thumb index : Landmark) (g : R) : R :=
  if pinching thumb index then
    let pinchY := (ly thumb + ly index) / 2 in
    ease 0.15 (targetGrowth pinchY) g
  else if gtb g 0.85 then ease 0.1 1.0 g
  else if ltb g 0.15 then ease 0.1 0.0 g
  else g.

Definition setGrowth (g : R) (s : Gesture) : Gesture :=
  {| growthRef := g; distortionRef := distortionRef s;
     isPinching := isPinching s; isDistorting := isDistorting s |}.

Definition setIsPinching (b : bool) (s : Gesture) : Gesture :=
  {| growthRef := growthRef s; distortionRef := distortionRef s;
     isPinching := b; isDistorting := isDistorting s |}.

Definition setIsDistorting (b : bool) (s : Gesture) : Gesture :=
  {| growthRef := growthRef s; distortionRef := distortionRef s;
     isPinching := isPinching s; isDistorting := b |}.

Definition setDistortion (d : Distortion) (s : Gesture) : Gesture :=
  {| growthRef := growthRef s; distortionRef := d;
     isPinching := isPinching s; isDistorting := isDistorting s |}.

(** "Hand 0: Control Hand (Growth)".  [ctx] tells whether the overlay
    canvas gave a 2D context, in which case [drawHand] runs. *)
Definition hand0 (ctx : bool) (hands : list Hand) (s : Gesture) : Outcome :=
  match hands with
  | landmarks :: _ =>
      match tips landmarks with
      | None => Thrown s
      | Some (thumb, index) =>
          let s1 := setIsPinching (pinching thumb index) s in
          let s2 := setGrowth (updateGrowth thumb index (growthRef s1)) s1 in
          if ctx && negb (drawHand landmarks) then Thrown s2 else Done s2
      end
  | [] => Done (setIsPinching false s)
  end.

(** "Hand 1: Distortion Hand (Effect)". *)
Definition hand1 (ctx : bool) (hands : list Hand) (s : Gesture) : Outcome :=
  match hands with
  | _ :: landmarks :: _ =>
      match tips landmarks with
      | None => Thrown s
      | Some (thumb, index) =>
          let p := pinching thumb index in
          let s1 := setIsDistorting p s in
          let midX := (lx thumb + lx index) / 2 in
          let midY := (ly thumb + ly index) / 2 in
          let s2 := setDistortion
                      {| x := 1 - 2 * midX; y := 1 - 2 * midY; active := p |} s1 in
          if ctx && negb (drawHand landmarks) then Thrown s2 else Done s2
      end
  | _ =>
      let s1 := setIsDistorting false s in
      Done (setDistortion {| x := x (distortionRef s1); y := y (distortionRef s1);
                             active := false |} s1)
  end.

(** The body of [if (detections.landmarks) { ... }] with its [catch]:
    [detections.landmarks] is an array, hence always truthy. *)
Definition onDetections (ctx : bool) (hands : list Hand) (s : Gesture) : Gesture :=
  match hand0 ctx hands s with
  | Done s1 => caught (hand1 ctx hands s1)
  | Thrown s1 => s1
  end.

(** *** The application around the detection loop *)

Record AppState := {
  gesture : Gesture;
  loading : bool;
  permissionError : bool;
  lastVideoTimeRef : R;
  (** [handLandmarkerRef.current] is set. *)
  handLandmarker : bool;
  (** the camera stream is attached to the video element, with its
      ['loadeddata'] listener *)
  stream : bool;
  (** [predictWebcam] is scheduled on animation frames *)
  detecting : bool
}.

Definition initial : AppState :=
  {| gesture := {| growthRef := 0;
                   distortionRef := {| x := 0; y := 0; active := false |};
                   isPinching := false; isDistorting := false |};
     loading := true; permissionError := false; lastVideoTimeRef := -1;
     handLandmarker := false; stream := false; detecting := false |}.

(** What [navigator.mediaDevices.getUserMedia] did. *)
Inductive Camera :=
| Unsupported   (**r [navigator.mediaDevices] or [getUserMedia] is missing *)
| Denied        (**r the promise rejected: permission denied or failure *)
| Granted       (**r a stream was returned *).

Definition startCamera (c : Camera) (a : AppState) : AppState :=
  match c with
  | Unsupported =>
      {| gesture := gesture a; loading := true; permissionError := false;
         lastVideoTimeRef := lastVideoTimeRef a; handLandmarker := handLandmarker a;
         stream := stream a; detecting := detecting a |}
  | Granted =>
      {| gesture := gesture a; loading := true; permissionError := false;
         lastVideoTimeRef := lastVideoTimeRef a; handLandmarker := handLandmarker a;
         stream := true; detecting := detecting a |}
  | Denied =>
      {| gesture := setGrowth 1.0 (gesture a); loading := false; permissionError := true;
         lastVideoTimeRef := lastVideoTimeRef a; handLandmarker := handLandmarker a;
         stream := stream a; detecting := detecting a |}
  end.

(** One call of [predictWebcam]: [currentTime] is the video's timestamp and
    [detections] what [detectForVideo] returned, [None] when it threw.  The
    video element is mounted, so the guard is on the hand landmarker. *)
Definition predictWebcam (ctx : bool) (currentTime : R)
           (detections : option (list Hand)) (a : AppState) : AppState :=
  if handLandmarker a then
    if neqb currentTime (lastVideoTimeRef a) then
      {| gesture := match detections with
                    | Some hands => onDetections ctx hands (gesture a)
                    | None => gesture a
                    end;
         loading := loading a; permissionError := permissionError a;
         lastVideoTimeRef := currentTime; handLandmarker := handLandmarker a;
         stream := stream a; detecting := true |}
    else
      {| gesture := gesture a; loading := loading a;
         permissionError := permissionError a;
         lastVideoTimeRef := lastVideoTimeRef a; handLandmarker := handLandmarker a;
         stream := stream a; detecting := true |}
  else
    {| gesture := gesture a; loading := loading a;
       permissionError := permissionError a;
       lastVideoTimeRef := lastVideoTimeRef a; handLandmarker := handLandmarker a;
       stream := stream a; detecting := false |}.

(** What can happen to the application after it is mounted. *)
Inductive Event :=
| MediaPipeReady (c : Camera)   (**r [setupMediaPipe] succeeded and called [startCamera] *)
| MediaPipeFailed               (**r the [catch] of [setupMediaPipe] *)
| Retry (c : Camera)            (**r the "Retry Connection" button *)
| LoadedData (ctx : bool) (currentTime : R) (detections : option (list Hand))
                                (**r the video's ['loadeddata'] listener *)
| AnimationFrame (ctx : bool) (currentTime : R) (detections : option (list Hand))
                                (**r a scheduled [predictWebcam] *).

Definition step (a : AppState) (e : Event) : AppState :=
  match e with
  | MediaPipeReady c =>
      startCamera c
        {| gesture := gesture a; loading := loading a;
           permissionError := permissionError a;
           lastVideoTimeRef := lastVideoTimeRef a; handLandmarker := true;
           stream := stream a; detecting := detecting a |}
  | MediaPipeFailed =>
      {| gesture := setGrowth 1.0 (gesture a); loading := false;
         permissionError := permissionError a;
         lastVideoTimeRef := lastVideoTimeRef a; handLandmarker := handLandmarker a;
         stream := stream a; detecting := detecting a |}
  | Retry c => if permissionError a then startCamera c a else a
  | LoadedData ctx t d =>
      if stream a then
        predictWebcam ctx t d
          {| gesture := gesture a; loading := false;
             permissionError := permissionError a;
             lastVideoTimeRef := lastVideoTimeRef a; handLandmarker := handLandmarker a;
             stream := stream a; detecting := detecting a |}
      else a
  | AnimationFrame ctx t d => if detecting a then predictWebcam ctx t d a else a
  end.

Definition run (a : AppState) (es : list Event) : AppState := fold_left step es a.

End App.

(** * App.tsx: the growth statement on IEEE doubles

    [growthRef.current] is a JavaScript number.  The release branch of the
    growth update is repeated here on binary64 floats, operation by
    operation, to follow it where rounding decides. *)

Module App64.
Import PrimFloat.
Local Open Scope float_scope.

(** [g += (target - g) * k] *)
Definition ease (k target g : float) : float := g + (target - g) * k.

(** The [else] branch of [if (pinching)], for a hand that is present. *)
Definition released (g : float) : float :=
  if 0.85 <? g then ease 0.1 1.0 g
  else if g <? 0.15 then ease 0.1 0.0 g
  else g.

Definition zero : float := 0.0.
Definition one : float := 1.0.
(** The start of the auto-snap scenario, and the double it ends on. *)
Definition start : float := 0.9.
Definition stalled : float := 0.9999999999999996.

End App64.

(** * GLSL built-ins used by the vertex shader *)

Module GLSL.

Record vec2 := { x2 : R; y2 : R }.
Record vec3 := { vx : R; vy : R; vz : R }.

Definition add3 (a b : vec3) : vec3 :=
  {| vx := vx a + vx b; vy := vy a + vy b; vz := vz a + vz b |}.
Definition scale3 (a : vec3) (k : R) : vec3 :=
  {| vx := vx a * k; vy := vy a * k; vz := vz a * k |}.
Definition sub3s (a : vec3) (k : R) : vec3 :=
  {| vx := vx a - k; vy := vy a - k; vz := vz a - k |}.
Definition add2s (a : vec2) (k : R) : vec2 := {| x2 := x2 a + k; y2 := y2 a + k |}.
Definition add2 (a b : vec2) : vec2 := {| x2 := x2 a + x2 b; y2 := y2 a + y2 b |}.
Definition scale2 (a : vec2) (k : R) : vec2 := {| x2 := x2 a * k; y2 := y2 a * k |}.

Definition dot2 (a b : vec2) : R := x2 a * x2 b + y2 a * y2 b.
Definition length3 (a : vec3) : R := sqrt (vx a * vx a + vy a * vy a + vz a * vz a).

(** [normalize(v)] is [v / length(v)]; at the zero vector, where GLSL leaves
    it undefined, the real division makes it the zero vector. *)
Definition normalize (a : vec3) : vec3 :=
  {| vx := vx a / length3 a; vy := vy a / length3 a; vz := vz a / length3 a |}.

Definition floor (a : R) : R := IZR (Int_part a).
Definition fract (a : R) : R := a - floor a.

(** [mix(x, y, a)] is [x * (1 - a) + y * a]. *)
Definition mix (a b t : R) : R := a * (1 - t) + b * t.
Definition mix3 (a b : vec3) (t : R) : vec3 :=
  {| vx := mix (vx a) (vx b) t; vy := mix (vy a) (vy b) t; vz := mix (vz a) (vz b) t |}.

Definition clamp (a lo hi : R) : R := Rmin (Rmax a lo) hi.

Definition smoothstep (edge0 edge1 a : R) : R :=
  let t := clamp ((a - edge0) / (edge1 - edge0)) 0 1 in
  t * t * (3 - 2 * t).

(** Two-argument [atan(y, x)]: the angle of the point [(x, y)] in
    [(-PI, PI]].  GLSL leaves [atan(0, 0)] undefined; it is [0] here. *)
Definition atan2 (b a : R) : R :=
  if ltb 0 a then atan (b / a)
  else if ltb a 0 then (if ltb b 0 then atan (b / a) - PI else atan (b / a) + PI)
  else if ltb 0 b then PI / 2
  else if ltb b 0 then - (PI / 2)
  else 0.

Section Pow.
(** GLSL leaves [pow(x, y)] undefined for [x < 0], and for [x = 0] with
    [y <= 0].  What an implementation returns there is a parameter. *)
Variable undefined_pow : R -> R -> R.

Definition pow (a b : R) : R :=
  if ltb 0 a then Rpower a b
  else if ltb a 0 then undefined_pow a b
  else if ltb 0 b then 0
  else undefined_pow a b.
End Pow.

End GLSL.

(** * components/Rose.tsx *)

Module Rose.
Import GLSL.

(** [types.ts] *)
Record RoseConfig := {
  color : String.string;
  petalCount : R;
  twist : R;
  openness : R;
  detail : R;
  speed : R;
  particleSize : R
}.

(** The vertex attributes of one particle. *)
Record Particle := {
  position : vec3;
  aRandom : R;
  aType : R;          (**r 0: Flower, 1: Stem, 2: Leaf *)
  aDirection : vec3
}.

(** The uniforms read by the vertex shader. *)
Record Uniforms := {
  uTime : R;
  uPetalCount : R;
  uTwist : R;
  uOpenness : R;
  uDetail : R;
  uParticleSize : R;
  uScanY : R
}.

(** What the vertex shader hands on. *)
Record Varyings := {
  vPosition : vec3;
  vDisplacement : R;
  vRandom : R;
  vType : R;
  vProgress : R
}.

(** ** The vertex shader *)

Definition hash (p : vec2) : R :=
  fract (sin (dot2 p {| x2 := 12.9898; y2 := 78.233 |}) * 43758.5453).

Definition noise (p : vec2) : R :=
  let i := {| x2 := floor (x2 p); y2 := floor (y2 p) |} in
  let f := {| x2 := fract (x2 p); y2 := fract (y2 p) |} in
  let f := {| x2 := x2 f * x2 f * (3.0 - 2.0 * x2 f);
              y2 := y2 f * y2 f * (3.0 - 2.0 * y2 f) |} in
  mix (mix (hash i) (hash (add2 i {| x2 := 1.0; y2 := 0.0 |})) (x2 f))
      (mix (hash (add2 i {| x2 := 0.0; y2 := 1.0 |}))
           (hash (add2 i {| x2 := 1.0; y2 := 1.0 |})) (x2 f))
      (y2 f).

Definition getTulipDisplacement (u : Uniforms) (position : vec3) : R :=
  let spherePos := normalize position in
  let theta := atan2 (vz spherePos) (vx spherePos) in
  let phi := acos (vy spherePos) in
  let twistedTheta := theta + phi * uTwist u in
  let petals := sin (twistedTheta * uPetalCount u) in
  let shape := petals in
  let bloom := smoothstep 0.0 1.5 (1.5 - phi) * uOpenness u * petals in
  let surfaceNoise :=
    noise (add2s (scale2 {| x2 := vx position; y2 := vz position |} 4.0)
                 (uTime u * 0.05)) * 0.05 * uDetail u in
  shape * 0.15 + bloom + surfaceNoise.

Definition boxSize : R := 12.5.

(** [ConstructionZone]: "Laser Emitters at top corners", the same four
    points as the [cornerID] branches of the shader, in the same order. *)
Definition corners : list vec3 :=
  [ {| vx := boxSize; vy := boxSize; vz := boxSize |};
    {| vx := - boxSize; vy := boxSize; vz := boxSize |};
    {| vx := - boxSize; vy := boxSize; vz := - boxSize |};
    {| vx := boxSize; vy := boxSize; vz := - boxSize |} ].

Definition corner (aRandom : R) : vec3 :=
  let cornerID := floor (aRandom * 4.0) in
  if ltb cornerID 0.5 then {| vx := boxSize; vy := boxSize; vz := boxSize |}
  else if ltb cornerID 1.5 then {| vx := - boxSize; vy := boxSize; vz := boxSize |}
  else if ltb cornerID 2.5 then {| vx := - boxSize; vy := boxSize; vz := - boxSize |}
  else {| vx := boxSize; vy := boxSize; vz := - boxSize |}.

(** "Spread source slightly" *)
Definition spread (aRandom : R) : vec3 :=
  scale3 (sub3s {| vx := hash {| x2 := aRandom; y2 := 0.1 |};
                   vy := hash {| x2 := aRandom; y2 := 0.2 |};
                   vz := hash {| x2 := aRandom; y2 := 0.3 |} |} 0.5) 0.5.

Definition cornerPos (aRandom : R) : vec3 := add3 (corner aRandom) (spread aRandom).

Section Shader.
Variable undefined_pow : R -> R -> R.

(** "SHAPE GENERATION": the final position and [disp]. *)
Definition shape (u : Uniforms) (p : Particle) : vec3 * R :=
  let pos := position p in
  if ltb (aType p) 0.5 then
    let disp := getTulipDisplacement u pos in
    let normal := normalize {| vx := vx pos; vy := vy pos * 0.5; vz := vz pos |} in
    let pos := add3 pos (scale3 normal disp) in
    ({| vx := vx pos + sin (uTime u * 0.3) * 0.1; vy := vy pos; vz := vz pos |}, disp)
  else
    let bendFactor := (vy pos + 6.0) / 6.0 in
    let bendFactor := pow undefined_pow bendFactor 2.0 in
    let windX := sin (uTime u * 0.4) * 0.2 * bendFactor in
    let windZ := cos (uTime u * 0.3) * 0.1 * bendFactor in
    let pos := {| vx := vx pos + windX; vy := vy pos; vz := vz pos + windZ |} in
    if gtb (aType p) 1.5 then
      (add3 pos (scale3 (scale3 (aDirection p) (sin (uTime u * 0.8 + vy pos))) 0.02), 0.0)
    else (pos, 0.0).

Definition finalPos (u : Uniforms) (p : Particle) : vec3 := fst (shape u p).

(** "CONSTRUCTION SCAN LOGIC" *)
Definition activation (u : Uniforms) (p : Particle) : R :=
  let verticalDist := vy (finalPos u p) - uScanY u in
  let edgeNoise := (aRandom p - 0.5) * 2.0 in
  smoothstep (-1.0) 1.0 (verticalDist + edgeNoise).

(** [main], up to [vPosition = pos]; the projection and the point size
    do not feed back into the varyings. *)
Definition main (u : Uniforms) (p : Particle) : Varyings :=
  let t := 1.0 - pow undefined_pow (1.0 - activation u p) 4.0 in
  {| vPosition := mix3 (cornerPos (aRandom p)) (finalPos u p) t;
     vDisplacement := snd (shape u p);
     vRandom := aRandom p;
     vType := aType p;
     vProgress := activation u p |}.
End Shader.

(** ** The geometry

    [Math.random()] is read from [rnd]: [rnd k] is the value of the [k]-th
    call, counted from 0, in the order the loops make them. *)

Definition flowerCount : nat := 120000.
Definition stemCount : nat := 30000.
Definition stemLength : R := 7.0.
Definition stemRadius : R := 0.08.
Definition leafCount : nat := 40000.
Definition leaves : nat := 3.
Definition ptsPerLeaf : nat := (leafCount / leaves)%nat.

Definition flowerParticle (rnd : nat -> R) (i : nat) : Particle :=
  let offset := 2 / INR flowerCount in
  let increment := PI * (3 - sqrt 5) in
  let yRaw := ((INR i * offset) - 1) + (offset / 2) in
  let rRaw := sqrt (1 - yRaw ^ 2) in
  let phi := INR ((i + 1) mod flowerCount) * increment in
  let px := cos phi * rRaw in
  let pz := sin phi * rRaw in
  let py := yRaw * 2.0 + 1.0 in
  {| position := {| vx := px; vy := py; vz := pz |};
     aRandom := rnd i;
     aType := 0.0;
     aDirection := {| vx := px; vy := py; vz := pz |} |}.

Definition stemParticle (rnd : nat -> R) (i : nat) : Particle :=
  let t := INR i / INR stemCount in
  let py := -1.0 - (t * stemLength) in
  let curveX := sin (py * 0.2) * 0.1 in
  let theta := rnd (flowerCount + 2 * i)%nat * PI * 2 in
  let r := stemRadius * (1.0 - t * 0.1) in
  let px := curveX + cos theta * r in
  let pz := sin theta * r in
  {| position := {| vx := px; vy := py; vz := pz |};
     aRandom := rnd (flowerCount + 2 * i + 1)%nat;
     aType := 1.0;
     aDirection := {| vx := cos theta; vy := 0; vz := sin theta |} |}.

Definition leafParticle (rnd : nat -> R) (l i : nat) : Particle :=
  let base := (flowerCount + 2 * stemCount + 3 * (l * ptsPerLeaf + i))%nat in
  let attachY := -6.0 + (INR l * 1.0) in
  let leafAngle := INR l * 2.1 in
  let leafDirX := cos leafAngle in
  let leafDirZ := sin leafAngle in
  let u := rnd base in
  let v := rnd (base + 1)%nat * 2 - 1 in
  let width := 0.5 * (1.0 - u ^ 2) * sin (u * 3.14) in
  let actualWidth := width * v in
  let h := u * 4.5 in
  let bendOut := sin (u * 3.14 * 0.5) * 0.8 in
  let lx := actualWidth in
  let lz := 0.1 + bendOut in
  let rx := leafDirX in
  let rz := leafDirZ in
  let tx := - leafDirZ in
  let tz := leafDirX in
  let px := (rx * lz) + (tx * lx) in
  let pz := (rz * lz) + (tz * lx) in
  let py := attachY + h in
  {| position := {| vx := px; vy := py; vz := pz |};
     aRandom := rnd (base + 2)%nat;
     aType := 2.0;
     aDirection := {| vx := px; vy := 0; vz := pz |} |}.

(** The particles in buffer order: head, stem, then the leaves blade by blade. *)
Definition geometry (rnd : nat -> R) : list Particle :=
  map (flowerParticle rnd) (seq 0 flowerCount)
  ++ map (stemParticle rnd) (seq 0 stemCount)
  ++ flat_map (fun l => map (leafParticle rnd l) (seq 0 ptsPerLeaf)) (seq 0 leaves).

(** ** The component *)

(** [RoseProps]: [growthRef] is optional. *)
Record RoseProps := {
  config : RoseConfig;
  growthRef : option R
}.

(** [THREE.MathUtils.lerp(10.0, -12.0, growth)] *)
Definition scanY (growth : R) : R := JSMath.lerp 10.0 (-12.0) growth.

(** The uniforms after [useFrame] at clock time [elapsed]; without a
    [growthRef] the scan plane keeps its initial value. *)
Definition uniforms (props : RoseProps) (elapsed : R) : Uniforms :=
  {| uTime := elapsed * speed (config props);
     uPetalCount := petalCount (config props);
     uTwist := twist (config props);
     uOpenness := openness (config props);
     uDetail := detail (config props);
     uParticleSize := particleSize (config props);
     uScanY := match growthRef props with
               | Some growth => scanY growth
               | None => 10.0
               end |}.

(** The varyings of one particle in the frame drawn at [elapsed]. *)
Definition render (undefined_pow : R -> R -> R) (props : RoseProps)
           (elapsed : R) (p : Particle) : Varyings :=
  main undefined_pow (uniforms props elapsed) p.

End Rose.

(** * App.tsx: the configuration handed to the scene *)

Module Scene.
Import String.

(** "Optimal High Detail Settings for a Tulip" *)
Definition CINEMATIC_CONFIG : Rose.RoseConfig :=
  {| Rose.color := "#7c00ff"%string;
     Rose.petalCount := 3.0;
     Rose.twist := 0.8;
     Rose.openness := 0.6;
     Rose.detail := 0.5;
     Rose.speed := 0.15;
     Rose.particleSize := 0.022 |}.

End Scene.

(** * components/RoseExperience.tsx *)

Module RoseExperience.
Import GLSL.

(** The attributes written on the [<Rose ... />] element. *)
Record RoseElement := {
  config : Rose.RoseConfig;
  growthRef : option R;
  distortPosRef : vec3;
  distortActiveRef : bool
}.

(** [Rose] is [({ config, growthRef }) => ...]: these are the props it binds. *)
Definition RoseProps_of (e : RoseElement) : Rose.RoseProps :=
  {| Rose.config := config e; Rose.growthRef := growthRef e |}.

Section Interaction.
(** [raycaster.setFromCamera({x, y}, camera)] followed by
    [ray.intersectPlane(plane, planeIntersect)]: the camera belongs to the
    renderer, so the projection is a parameter. *)
Variable project : R -> R -> vec3.
Variable undefined_pow : R -> R -> R.

(** [InteractionHandler]'s frame callback with [handleCursorUpdate]:
    the new [(distortPosRef, distortActiveRef)], from the last
    [planeIntersect]. *)
Definition handleCursor (d : App.Distortion) (planeIntersect : vec3) : vec3 * bool :=
  if App.active d then (project (App.x d) (App.y d), true)
  else (planeIntersect, false).

(** What is drawn for particle [p]: the gesture state goes through
    [InteractionHandler] into the refs handed to [Rose]. *)
Definition display (cfg : Rose.RoseConfig) (g : App.Gesture) (planeIntersect : vec3)
           (elapsed : R) (p : Rose.Particle) : Rose.Varyings :=
  let c := handleCursor (App.distortionRef g) planeIntersect in
  Rose.render undefined_pow
    (RoseProps_of {| config := cfg; growthRef := Some (App.growthRef g);
                     distortPosRef := fst c; distortActiveRef := snd c |})
    elapsed p.
End Interaction.

End RoseExperience.

(** * Vocabulary of the design document

    Definitions written after the document's wording, to be compared with
    the code above. *)

Module Doc.

(** "ordered sequence of 21 2D landmark points ... per detected hand" *)
Definition wellFormed (h : App.Hand) : Prop := length h = 21%nat.

(** The "not pinching" rule: "if growth > 0.85, ease toward 1.0 with gain
    0.1; if growth < 0.15, ease toward 0.0 with gain 0.1; otherwise growth
    is held unchanged". *)
Definition notPinchingRule (growth : R) : R :=
  if Rlt_dec 0.85 growth then growth + (1.0 - growth) * 0.1
  else if Rlt_dec growth 0.15 then growth + (0.0 - growth) * 0.1
  else growth.

(** "map y in [0.2, 0.8] linearly to a raw target progress, clamp to [0, 1];
    snap the target to 1.0 if it exceeds 0.85 and to 0.0 if below 0.15" *)
Definition snappedTarget (midY : R) : R :=
  let target := Rmin 1 (Rmax 0 ((midY - 0.2) / (0.8 - 0.2))) in
  if Rlt_dec 0.85 target then 1.0
  else if Rlt_dec target 0.15 then 0.0
  else target.

(** The camera never delivers a stream in this event. *)
Definition cameraFails (e : App.Event) : Prop :=
  match e with
  | App.MediaPipeReady App.Granted | App.Retry App.Granted => False
  | _ => True
  end.

(** Rotation of a point about the vertical axis by [alpha], azimuth
    increasing. *)
Definition rotateY (alpha : R) (p : GLSL.vec3) : GLSL.vec3 :=
  {| GLSL.vx := GLSL.vx p * cos alpha - GLSL.vz p * sin alpha;
     GLSL.vy := GLSL.vy p;
     GLSL.vz := GLSL.vx p * sin alpha + GLSL.vz p * cos alpha |}.

(** The fully built, static structure: growth at 1, distortion off, no
    camera stream and no detection loop. *)
Definition staticBuilt (a : App.AppState) : Prop :=
  App.growthRef (App.gesture a) = 1
  /\ App.active (App.distortionRef (App.gesture a)) = false
  /\ App.stream a = false
  /\ App.detecting a = false.

(** The spherical angles [theta] and [phi] that [getTulipDisplacement]
    computes for a position. *)
Definition azimuth (p : GLSL.vec3) : R :=
  GLSL.atan2 (GLSL.vz (GLSL.normalize p)) (GLSL.vx (GLSL.normalize p)).
Definition polar (p : GLSL.vec3) : R := acos (GLSL.vy (GLSL.normalize p)).

(** The surface-noise term of [getTulipDisplacement], and the rest of the
    sum: the petal fold and the bloom. *)
Definition surfaceNoise (u : Rose.Uniforms) (position : GLSL.vec3) : R :=
  Rose.noise (GLSL.add2s (GLSL.scale2 {| GLSL.x2 := GLSL.vx position;
                                         GLSL.y2 := GLSL.vz position |} 4.0)
                         (Rose.uTime u * 0.05)) * 0.05 * Rose.uDetail u.

Definition petalDisplacement (u : Rose.Uniforms) (position : GLSL.vec3) : R :=
  Rose.getTulipDisplacement u position - surfaceNoise u position.

(** Sample inputs: a gesture state at rest with a given growth, a hand
    whose 21 landmarks all sit at one point, and a particle. *)
Definition restingAt (g : R) : App.Gesture :=
  {| App.growthRef := g;
     App.distortionRef := {| App.x := 0; App.y := 0; App.active := false |};
     App.isPinching := false; App.isDistorting := false |}.

Definition handAt (px py : R) : App.Hand :=
  repeat {| App.lx := px; App.ly := py |} 21.

Definition particleAt (px py pz seed type : R) : Rose.Particle :=
  {| Rose.position := {| GLSL.vx := px; GLSL.vy := py; GLSL.vz := pz |};
     Rose.aRandom := seed;
     Rose.aType := type;
     Rose.aDirection := {| GLSL.vx := px; GLSL.vy := 0; GLSL.vz := pz |} |}.

(** Uniforms with a fractional petal count and nothing else switched on. *)
Definition fourThirdsPetals : Rose.Uniforms :=
  {| Rose.uTime := 0; Rose.uPetalCount := 4 / 3; Rose.uTwist := 0;
     Rose.uOpenness := 0; Rose.uDetail := 0; Rose.uParticleSize := 0.022;
     Rose.uScanY := 10 |}.

(** The cinematic settings with two petals, at time 0. *)
Definition twoPetals : Rose.Uniforms :=
  {| Rose.uTime := 0; Rose.uPetalCount := 2; Rose.uTwist := 0.8;
     Rose.uOpenness := 0.6; Rose.uDetail := 0.5; Rose.uParticleSize := 0.022;
     Rose.uScanY := 10 |}.

End Doc.

(** * components/Rose.tsx: the rest of the material and the laser beams *)

Module Material.
Import GLSL.

Section Shaders.
Variable undefined_pow : R -> R -> R.
(** GLSL leaves [smoothstep] undefined when [edge0 >= edge1]; the shaders
    call it with falling edges, so what an implementation returns there is
    a parameter. *)
Variable undefined_smoothstep : R -> R -> R -> R.

Definition smoothstep (edge0 edge1 a : R) : R :=
  if ltb edge0 edge1 then GLSL.smoothstep edge0 edge1 a
  else undefined_smoothstep edge0 edge1 a.

(** "Size Attenuation & Pop-in": [gl_PointSize], where [mvz] is
    [mvPosition.z], the depth the camera gives the displayed position. *)
Definition gl_PointSize (mvz : R) (u : Rose.Uniforms) (p : Rose.Particle) : R :=
  let activation := Rose.activation undefined_pow u p in
  let sizeMult := if ltb (Rose.aType p) 0.5 then 1.0 else 0.8 in
  let arrivalFlash := smoothstep 0.0 0.2 activation * smoothstep 0.4 0.2 activation in
  let growSize := sizeMult * activation * (1.0 + arrivalFlash * 1.5) in
  let size := Rose.uParticleSize u * growSize * (300.0 / - mvz) in
  size * (0.8 + 0.2 * sin (Rose.uTime u * 2.0 + Rose.aRandom p * 50.0)).

Definition length2 (a : vec2) : R := sqrt (x2 a * x2 a + y2 a * y2 a).

(** The fragment shader: [None] is [discard], otherwise the colour and the
    alpha written to [gl_FragColor]. *)
Definition fragment (uColor : vec3) (gl_PointCoord : vec2) (v : Rose.Varyings)
  : option (vec3 * R) :=
  let coord := {| x2 := x2 gl_PointCoord - 0.5; y2 := y2 gl_PointCoord - 0.5 |} in
  let d := length2 coord in
  if gtb d 0.5 then None
  else
    let alpha := smoothstep 0.5 0.0 d in
    if ltb (Rose.vProgress v) 0.01 then None
    else
      let finalColor :=
        if ltb (Rose.vType v) 0.5 then
          let deepColor := scale3 uColor 0.4 in
          let tipColor := scale3 uColor 1.8 in
          let mixFactor := smoothstep (-0.1) 0.4 (Rose.vDisplacement v) in
          scale3 (mix3 deepColor tipColor mixFactor) (0.8 + 0.4 * Rose.vRandom v)
        else
          let stemDark := {| vx := 0.05; vy := 0.15; vz := 0.1 |} in
          let leafBlue := {| vx := 0.1; vy := 0.3; vz := 0.25 |} in
          let c := mix3 stemDark leafBlue (Rose.vRandom v * 0.8 + 0.2) in
          if gtb (Rose.vType v) 1.5 && gtb (vy (Rose.vPosition v)) (-2.0)
          then scale3 c 1.2 else c in
      let heat := smoothstep 0.4 0.0 (Rose.vProgress v) in
      let hotColor := scale3 {| vx := 1.0; vy := 0.8; vz := 0.9 |} 4.0 in
      let finalColor := mix3 finalColor hotColor heat in
      let alpha := mix alpha 1.0 (heat * 0.8) in
      let alpha := pow undefined_pow alpha 1.5 in
      Some (finalColor, alpha).
End Shaders.

End Material.

Module Beam.
Import GLSL.

(** [Vector3.lerpVectors(v1, v2, alpha)] is [v1 + (v2 - v1) * alpha]. *)
Definition lerpVectors (v1 v2 : vec3) (alpha : R) : vec3 :=
  {| vx := vx v1 + (vx v2 - vx v1) * alpha;
     vy := vy v1 + (vy v2 - vy v1) * alpha;
     vz := vz v1 + (vz v2 - vz v1) * alpha |}.

(** [a.distanceTo(b)] *)
Definition distanceTo (a b : vec3) : R :=
  sqrt ((vx a - vx b) * (vx a - vx b) + (vy a - vy b) * (vy a - vy b)
        + (vz a - vz b) * (vz a - vz b)).

(** What [TrackingBeam]'s frame callback writes to its mesh, the
    orientation apart: the position, the length scale and the visibility. *)
Record Mesh := { position : vec3; scaleY : R; visible : bool }.

Definition TrackingBeam (start : vec3) (growthRef : option R) : Mesh :=
  let growth := match growthRef with Some g => g | None => 1.0 end in
  let scanY := JSMath.lerp 10.0 (-12.0) growth in
  let active := ltb growth 0.99 in
  let target := {| vx := 0; vy := scanY; vz := 0 |} in
  {| position := lerpVectors start target 0.5;
     scaleY := distanceTo start target;
     visible := active |}.

(** [ConstructionZone]: one beam per corner. *)
Definition ConstructionZone (growthRef : option R) : list Mesh :=
  map (fun corner => TrackingBeam corner growthRef) Rose.corners.

End Beam.

(** * components/RoseExperience.tsx: the camera controller *)

Module CameraController.

(** The height the orbit target is pulled to. *)
Definition targetY (growth : R) : R :=
  let scanY := JSMath.lerp 10.0 (-12.0) growth in
  if gtb growth 0.9 then 2.0
  else if ltb growth 0.05 then 5.0
  else scanY.

(** One frame: the new [controls.target.y] from the current one. *)
Definition frame (growthRef : option R) (y : R) : R :=
  match growthRef with
  | Some growth => JSMath.lerp y (targetY growth) 0.08
  | None => y
  end.

End CameraController.

(** * Further vocabulary, for the properties read off the code *)

Module Terms.

(** Events that can follow [setupMediaPipe], which runs once on mount. *)
Definition afterSetup (e : App.Event) : Prop :=
  match e with
  | App.MediaPipeReady _ | App.MediaPipeFailed => False
  | _ => True
  end.

(** A hand with only its first [n] landmarks, all at one point. *)
Definition partialHand (n : nat) (px py : R) : App.Hand :=
  repeat {| App.lx := px; App.ly := py |} n.

(** [Math.random()] returns a number in [0, 1). *)
Definition unitRandom (rnd : nat -> R) : Prop := forall k, 0 <= rnd k < 1.

(** Settings whose bloom and noise amplitudes stay small: the configuration
    sliders (openness up to 3, detail up to 5) are well inside. *)
Definition tame (cfg : Rose.RoseConfig) : Prop :=
  Rabs (Rose.openness cfg) + 0.05 * Rabs (Rose.detail cfg) <= 4.

End Terms.

(** * Properties *)

(** ** Real comparisons *)

Lemma ltb_true (a b : R) : ltb a b = true <-> a < b.
Proof. unfold ltb; destruct (Rlt_dec a b); split; intros; congruence || lra. Qed.

Lemma ltb_false (a b : R) : ltb a b = false <-> b <= a.
Proof. unfold ltb; destruct (Rlt_dec a b); split; intros; congruence || lra. Qed.

Lemma gtb_true (a b : R) : gtb a b = true <-> a > b.
Proof. unfold gtb; rewrite ltb_true; lra. Qed.

Lemma gtb_false (a b : R) : gtb a b = false <-> a <= b.
Proof. unfold gtb; rewrite ltb_false; lra. Qed.

(** ** The gesture interpreter *)

Section GestureFacts.
Import App Doc.

Lemma wellFormed_drawHand h : wellFormed h -> drawHand h = true.
Proof. unfold wellFormed, drawHand; intros ->; reflexivity. Qed.

Lemma wellFormed_tips h :
  wellFormed h -> exists thumb index,
    nth_error h 4 = Some thumb /\ nth_error h 8 = Some index.
Proof.
  unfold wellFormed; intros H.
  do 9 (destruct h as [|? h]; [discriminate H|]).
  simpl; eauto.
Qed.

Lemma tips_some h thumb index :
  nth_error h 4 = Some thumb -> nth_error h 8 = Some index ->
  tips h = Some (thumb, index).
Proof. unfold tips; intros -> ->; reflexivity. Qed.

Lemma hand0_present ctx h rest s thumb index :
  wellFormed h -> nth_error h 4 = Some thumb -> nth_error h 8 = Some index ->
  hand0 ctx (h :: rest) s =
  Done (setGrowth (updateGrowth thumb index (growthRef s))
                  (setIsPinching (pinching thumb index) s)).
Proof.
  intros Hwf Ht Hi; unfold hand0.
  rewrite (tips_some _ _ _ Ht Hi), (wellFormed_drawHand _ Hwf).
  rewrite andb_false_r; reflexivity.
Qed.

Lemma hand1_present ctx h0 h rest s thumb index :
  wellFormed h -> nth_error h 4 = Some thumb -> nth_error h 8 = Some index ->
  hand1 ctx (h0 :: h :: rest) s =
  Done (setDistortion
          {| x := 1 - 2 * ((lx thumb + lx index) / 2);
             y := 1 - 2 * ((ly thumb + ly index) / 2);
             active := pinching thumb index |}
          (setIsDistorting (pinching thumb index) s)).
Proof.
  intros Hwf Ht Hi; unfold hand1.
  rewrite (tips_some _ _ _ Ht Hi), (wellFormed_drawHand _ Hwf).
  rewrite andb_false_r; reflexivity.
Qed.

(** The distortion block never writes the growth signal. *)
Lemma hand1_growth ctx hands s :
  growthRef (caught (hand1 ctx hands s)) = growthRef s
  /\ isPinching (caught (hand1 ctx hands s)) = isPinching s.
Proof.
  unfold hand1.
  destruct hands as [|h0 [|h1 rest]]; simpl; auto.
  destruct (tips h1) as [[thumb index]|]; simpl; auto.
  destruct (ctx && negb (drawHand h1)); simpl; auto.
Qed.

(** The growth block never writes the distortion signal. *)
Lemma hand0_distortion ctx hands s :
  distortionRef (caught (hand0 ctx hands s)) = distortionRef s.
Proof.
  unfold hand0.
  destruct hands as [|h0 rest]; simpl; auto.
  destruct (tips h0) as [[thumb index]|]; simpl; auto.
  destruct (ctx && negb (drawHand h0)); simpl; auto.
Qed.

Lemma onDetections_primary ctx h rest s thumb index :
  wellFormed h -> nth_error h 4 = Some thumb -> nth_error h 8 = Some index ->
  growthRef (onDetections ctx (h :: rest) s) = updateGrowth thumb index (growthRef s)
  /\ isPinching (onDetections ctx (h :: rest) s) = pinching thumb index.
Proof.
  intros Hwf Ht Hi; unfold onDetections.
  rewrite (hand0_present ctx h rest s thumb index Hwf Ht Hi).
  destruct (hand1_growth ctx (h :: rest)
              (setGrowth (updateGrowth thumb index (growthRef s))
                         (setIsPinching (pinching thumb index) s))) as [-> ->].
  split; reflexivity.
Qed.

Lemma onDetections_no_hands ctx s :
  onDetections ctx [] s =
  setDistortion {| x := x (distortionRef s); y := y (distortionRef s); active := false |}
                (setIsDistorting false (setIsPinching false s)).
Proof. reflexivity. Qed.

(** *** Smoothing *)

Lemma ease_error k target g : ease k target g - target = (1 - k) * (g - target).
Proof. unfold ease; ring. Qed.

Lemma iter_ease_error k target g n :
  Nat.iter n (ease k target) g - target = (1 - k) ^ n * (g - target).
Proof.
  induction n as [|n IH]; simpl.
  - ring.
  - rewrite ease_error, IH; ring.
Qed.

Lemma pow_le_1 r n : 0 <= r <= 1 -> 0 <= r ^ n <= 1.
Proof.
  intros Hr; induction n as [|n IH]; simpl; [lra|].
  split; [apply Rmult_le_pos; lra|].
  replace 1 with (1 * 1) by ring.
  apply Rmult_le_compat; lra.
Qed.

Lemma pow_antitone r n m : 0 <= r <= 1 -> (n <= m)%nat -> r ^ m <= r ^ n.
Proof.
  intros Hr Hnm; induction Hnm as [|m Hnm IH]; [lra|].
  simpl. pose proof (pow_le_1 r m Hr) as Hm.
  apply Rle_trans with (r ^ m); [|exact IH].
  replace (r ^ m) with (1 * r ^ m) at 2 by ring.
  apply Rmult_le_compat_r; lra.
Qed.

Lemma gain_015_ticks : (1 - 0.15) ^ 43 < 1 / 1000.
Proof. simpl; lra. Qed.

Lemma gain_01_ticks : (1 - 0.1) ^ 66 < 1 / 1000.
Proof. simpl; lra. Qed.

(** The distance to the target after [n] ticks, and the side it stays on. *)
Lemma iter_ease_toward k target g n :
  0 < k < 1 ->
  Rabs (Nat.iter (S n) (ease k target) g - target)
    <= Rabs (Nat.iter n (ease k target) g - target)
  /\ (g <= target ->
      Nat.iter n (ease k target) g <= Nat.iter (S n) (ease k target) g <= target)
  /\ (target <= g ->
      target <= Nat.iter (S n) (ease k target) g <= Nat.iter n (ease k target) g).
Proof.
  intros Hk.
  pose proof (iter_ease_error k target g n) as En.
  pose proof (pow_le_1 (1 - k) n ltac:(lra)) as Pn.
  assert (ES : Nat.iter (S n) (ease k target) g - target
               = (1 - k) * (Nat.iter n (ease k target) g - target))
    by (simpl; apply ease_error).
  set (a := Nat.iter n (ease k target) g) in *.
  set (b := Nat.iter (S n) (ease k target) g) in *.
  split; [|split].
  - rewrite ES, Rabs_mult, (Rabs_pos_eq (1 - k)) by lra.
    pose proof (Rabs_pos (a - target)). nra.
  - intros Hg. assert (a - target <= 0) by (rewrite En; nra). nra.
  - intros Hg. assert (0 <= a - target) by (rewrite En; nra). nra.
Qed.

Lemma iter_ease_close k target g n N :
  0 < k < 1 -> (1 - k) ^ N < 1 / 1000 -> (N <= n)%nat ->
  0 <= g <= 1 -> 0 <= target <= 1 ->
  Rabs (Nat.iter n (ease k target) g - target) < 1 / 1000.
Proof.
  intros Hk HN Hn Hg Ht.
  rewrite iter_ease_error, Rabs_mult.
  pose proof (pow_le_1 (1 - k) n ltac:(lra)) as Pn.
  pose proof (pow_antitone (1 - k) N n ltac:(lra) Hn) as Pa.
  rewrite (Rabs_pos_eq ((1 - k) ^ n)) by lra.
  assert (Rabs (g - target) <= 1) by (apply Rabs_le; lra).
  pose proof (Rabs_pos (g - target)). nra.
Qed.

(** *** The pinch target *)

Lemma targetGrowth_range pinchY : 0 <= targetGrowth pinchY <= 1.
Proof.
  unfold targetGrowth.
  set (c := Rmax 0 (Rmin 1 _)).
  assert (0 <= c <= 1).
  { unfold c; split; [apply Rmax_l|].
    apply Rmax_lub; [lra|apply Rmin_l]. }
  cases_R; lra.
Qed.

End GestureFacts.

(** ** Claims on the gesture interpreter *)

Section GestureClaims.
Import App Doc.

Lemma frames_without_hands_hold (frames : list bool) s :
  growthRef (fold_left (fun s ctx => onDetections ctx [] s) frames s) = growthRef s.
Proof.
  revert s; induction frames as [|ctx frames IH]; intros s; simpl; [reflexivity|].
  rewrite IH; reflexivity.
Qed.

(** C2, as the document states it, fails: with the primary hand absent and
    growth at 0.9 the not-pinching rule asks for 0.91, the code leaves 0.9. *)
Lemma absent_hand_autosnap_counterexample :
  growthRef (onDetections false [] (restingAt 0.9)) = 0.9
  /\ notPinchingRule (growthRef (restingAt 0.9)) = 0.91
  /\ growthRef (onDetections false [] (restingAt 0.9))
     <> notPinchingRule (growthRef (restingAt 0.9)).
Proof.
  assert (E : notPinchingRule (growthRef (restingAt 0.9)) = 0.91).
  { unfold notPinchingRule; cbn [growthRef restingAt]. cases_R; lra. }
  split; [reflexivity|]. split; [exact E|].
  rewrite E; cbn [growthRef restingAt onDetections hand0 hand1 caught
                  setIsPinching setIsDistorting setDistortion]; lra.
Qed.

(** C2 (amended): in every detection frame without a primary hand, pinching
    is treated as false and growth is held unchanged, whatever its value; in
    particular, from 0.5 it stays exactly 0.5 over any run of such frames. *)
Theorem absent_hand_holds_growth :
  (forall ctx s,
      isPinching (onDetections ctx [] s) = false
      /\ growthRef (onDetections ctx [] s) = growthRef s)
  /\ (forall (frames : list bool) s,
         growthRef (fold_left (fun s ctx => onDetections ctx [] s) frames
                              (setGrowth 0.5 s)) = 0.5).
Proof.
  split.
  - intros ctx s; split; reflexivity.
  - intros frames s; rewrite frames_without_hands_hold; reflexivity.
Qed.

Lemma targetGrowth_snapped pinchY : targetGrowth pinchY = snappedTarget pinchY.
Proof.
  unfold targetGrowth, snappedTarget, minY, maxY.
  set (raw := (pinchY - 0.2) / (0.8 - 0.2)).
  assert (E : Rmax 0 (Rmin 1 raw) = Rmin 1 (Rmax 0 raw)).
  { unfold Rmax, Rmin.
    destruct (Rle_dec 1 raw); destruct (Rle_dec 0 raw);
      repeat (match goal with
              | |- context [Rle_dec ?a ?b] => destruct (Rle_dec a b)
              end; cbv iota); lra. }
  rewrite E. set (c := Rmin 1 (Rmax 0 raw)).
  cases_R; lra.
Qed.

(** C6: with the primary hand present, pinching holds exactly when the
    aspect-corrected thumb-index distance is below 0.06 (at 0.06 it does
    not); while pinching, growth moves by gain 0.15 toward the clamped and
    snapped target, and a midpoint at y = 0.2 gives raw progress 0, target 0
    and growth shrinking toward 0. *)
Theorem primary_hand_pinch_and_growth ctx h rest s thumb index :
  wellFormed h -> nth_error h 4 = Some thumb -> nth_error h 8 = Some index ->
  let d := JSMath.hypot ((lx thumb - lx index) * (640 / 480)) (ly thumb - ly index) in
  let midY := (ly thumb + ly index) / 2 in
  let s' := onDetections ctx (h :: rest) s in
  (isPinching s' = true <-> d < 0.06)
  /\ (d = 0.06 -> isPinching s' = false)
  /\ (d < 0.06 ->
      growthRef s' = growthRef s + (snappedTarget midY - growthRef s) * 0.15)
  /\ (d < 0.06 -> midY = 0.2 ->
      (midY - 0.2) / (0.8 - 0.2) = 0
      /\ snappedTarget midY = 0
      /\ growthRef s' = 0.85 * growthRef s
      /\ (0 < growthRef s -> 0 < growthRef s' < growthRef s)).
Proof.
  intros Hwf Ht Hi d midY s'.
  destruct (onDetections_primary ctx h rest s thumb index Hwf Ht Hi) as [Hg Hp].
  fold s' in Hg, Hp.
  assert (Hd : pinching thumb index = true <-> d < 0.06)
    by (unfold pinching; rewrite ltb_true; reflexivity).
  assert (Hgrow : d < 0.06 ->
            growthRef s' = growthRef s + (snappedTarget midY - growthRef s) * 0.15).
  { intros Hlt. rewrite Hg. unfold updateGrowth.
    apply Hd in Hlt; rewrite Hlt. cbv zeta.
    rewrite targetGrowth_snapped; reflexivity. }
  split; [rewrite Hp; exact Hd|].
  split.
  { intros E. rewrite Hp. unfold pinching. apply ltb_false.
    change (dist thumb index) with d. lra. }
  split; [exact Hgrow|].
  intros Hlt Hmid.
  assert (T0 : snappedTarget midY = 0).
  { rewrite Hmid; unfold snappedTarget.
    replace ((0.2 - 0.2) / (0.8 - 0.2)) with 0 by (field; lra).
    rewrite Rmax_left by lra. rewrite Rmin_right by lra.
    cases_R; lra. }
  assert (G : growthRef s' = 0.85 * growthRef s)
    by (rewrite (Hgrow Hlt), T0; lra).
  split; [rewrite Hmid; field; lra|].
  split; [exact T0|]. split; [exact G|].
  intros Hpos; rewrite G; lra.
Qed.

Lemma dist_coincident p : dist p p = 0.
Proof.
  unfold dist, JSMath.hypot.
  replace ((lx p - lx p) * aspectRatio * ((lx p - lx p) * aspectRatio)
           + (ly p - ly p) * (ly p - ly p)) with 0 by ring.
  apply sqrt_0.
Qed.

Lemma primary_hand_pinch_and_growth_witness :
  growthRef (onDetections false [handAt 0.5 0.2] (restingAt 1))
  = growthRef (restingAt 1)
    + (snappedTarget ((0.2 + 0.2) / 2) - growthRef (restingAt 1)) * 0.15.
Proof.
  refine (proj1 (proj2 (proj2
    (primary_hand_pinch_and_growth false (handAt 0.5 0.2) [] (restingAt 1)
       {| lx := 0.5; ly := 0.2 |} {| lx := 0.5; ly := 0.2 |}
       eq_refl eq_refl eq_refl))) _).
  change (dist {| lx := 0.5; ly := 0.2 |} {| lx := 0.5; ly := 0.2 |} < 0.06).
  rewrite dist_coincident; lra.
Defined.

Lemma updateGrowth_pinching thumb index g :
  pinching thumb index = true ->
  updateGrowth thumb index g = ease 0.15 (targetGrowth ((ly thumb + ly index) / 2)) g.
Proof. unfold updateGrowth; intros ->; reflexivity. Qed.

Lemma updateGrowth_released thumb index g :
  pinching thumb index = false ->
  updateGrowth thumb index g
  = if gtb g 0.85 then ease 0.1 1.0 g else if ltb g 0.15 then ease 0.1 0.0 g else g.
Proof. unfold updateGrowth; intros ->; reflexivity. Qed.

Lemma iter_ext (f h : R -> R) (P : R -> Prop) n g :
  (forall a, P a -> f a = h a) -> (forall a, P a -> P (h a)) -> P g ->
  Nat.iter n f g = Nat.iter n h g /\ P (Nat.iter n h g).
Proof.
  intros Hfh HP Hg; induction n as [|n [IH IP]]; simpl; [auto|].
  rewrite IH; split; auto.
Qed.

(** From 0.9 with the hand open, every tick stays in [0.9, 1). *)
Lemma autosnap_from_09 thumb index n :
  pinching thumb index = false ->
  0.9 <= Nat.iter n (updateGrowth thumb index) 0.9 < 1.
Proof.
  intros Hp; induction n as [|n IH]; simpl; [lra|].
  rewrite (updateGrowth_released _ _ _ Hp).
  set (a := Nat.iter n (updateGrowth thumb index) 0.9) in *.
  unfold ease; cases_R; lra.
Qed.

Lemma released64_early :
  forallb (fun n =>
             let f := Nat.iter n App64.released App64.start in
             PrimFloat.leb App64.start f
             && PrimFloat.leb f (App64.released f)
             && PrimFloat.ltb f (App64.released f)
             && PrimFloat.ltb (App64.released f) App64.one)
          (seq 0 312) = true.
Proof. vm_compute; reflexivity. Qed.

Lemma released64_stall :
  App64.released (Nat.iter 312 App64.released App64.start)
  = Nat.iter 312 App64.released App64.start.
Proof. vm_compute; reflexivity. Qed.

Lemma released64_late n :
  (312 <= n)%nat ->
  Nat.iter n App64.released App64.start = Nat.iter 312 App64.released App64.start.
Proof.
  intros Hn; induction Hn as [|m Hm IH]; [reflexivity|].
  change (Nat.iter (S m) App64.released App64.start)
    with (App64.released (Nat.iter m App64.released App64.start)).
  rewrite IH; apply released64_stall.
Qed.

(** The auto-snap from 0.9 on doubles, tick by tick: never below 0.9, never
    down, always below 1; strictly up for the first 312 ticks and at rest
    from then on. *)
Lemma released64_trajectory n :
  let f := Nat.iter n App64.released App64.start in
  PrimFloat.leb App64.start f = true
  /\ PrimFloat.leb f (App64.released f) = true
  /\ PrimFloat.ltb (App64.released f) App64.one = true
  /\ ((n < 312)%nat -> PrimFloat.ltb f (App64.released f) = true)
  /\ ((312 <= n)%nat -> App64.released f = f).
Proof.
  intros f; unfold f.
  destruct (Nat.lt_ge_cases n 312) as [Hlt|Hge].
  - pose proof released64_early as H.
    rewrite forallb_forall in H.
    specialize (H n ltac:(apply in_seq; lia)). cbv zeta in H.
    apply andb_prop in H as [H H4]; apply andb_prop in H as [H H3];
      apply andb_prop in H as [H1 H2].
    split; [exact H1|]. split; [exact H2|].
    split; [exact H4|]. split; [intros _; exact H3|intros; lia].
  - rewrite (released64_late n Hge), released64_stall.
    split; [vm_compute; reflexivity|].
    split; [vm_compute; reflexivity|].
    split; [vm_compute; reflexivity|].
    split; [intros; lia|intros _; reflexivity].
Qed.

(** C7, as the document states it, fails on the code's doubles: from 0.9
    with the hand open, tick 313 leaves growth where tick 312 put it, at
    0.9999999999999996, so the ticks do not go on increasing it strictly. *)
Lemma autosnap_stalls_on_doubles :
  Nat.iter 313 App64.released App64.start = Nat.iter 312 App64.released App64.start
  /\ PrimFloat.ltb (Nat.iter 312 App64.released App64.start)
                   (Nat.iter 313 App64.released App64.start) = false
  /\ Nat.iter 312 App64.released App64.start = App64.stalled
  /\ PrimFloat.ltb App64.stalled App64.one = true.
Proof. vm_compute; repeat split; reflexivity. Qed.

(** C7 (amended): iterating growth := growth + (g* - growth) * k with a
    constant target in [0,1] and gain 0.15 or 0.1 never increases the
    distance to the target, never crosses it, and is within 1e-3 of it after
    66 ticks from any start in [0,1]; the pinching rule and the auto-snap
    rule of the code are such iterations; from 0.9 with the hand open growth
    never decreases and stays in [0.9, 1), and 0 and 1 are fixed points.  On
    the code's doubles the same holds from 0.9, the increase being strict
    for the first 312 ticks, after which growth rests just below 1. *)
Theorem growth_smoothing_converges k target g n :
  k = 0.15 \/ k = 0.1 -> 0 <= target <= 1 -> 0 <= g <= 1 ->
  let gn := Nat.iter n (ease k target) g in
  let gS := Nat.iter (S n) (ease k target) g in
  Rabs (gS - target) <= Rabs (gn - target)
  /\ (g <= target -> gn <= gS <= target)
  /\ (target <= g -> target <= gS <= gn)
  /\ ((66 <= n)%nat -> Rabs (gn - target) < 1 / 1000)
  /\ (forall thumb index,
        pinching thumb index = true ->
        target = targetGrowth ((ly thumb + ly index) / 2) -> k = 0.15 ->
        Nat.iter n (updateGrowth thumb index) g = gn)
  /\ (forall thumb index,
        pinching thumb index = false ->
        (0.85 < g -> target = 1 -> k = 0.1 ->
         Nat.iter n (updateGrowth thumb index) g = gn)
        /\ (g < 0.15 -> target = 0 -> k = 0.1 ->
            Nat.iter n (updateGrowth thumb index) g = gn)
        /\ 0.9 <= Nat.iter n (updateGrowth thumb index) 0.9
        /\ Nat.iter n (updateGrowth thumb index) 0.9
           <= Nat.iter (S n) (updateGrowth thumb index) 0.9 < 1
        /\ updateGrowth thumb index 0 = 0
        /\ updateGrowth thumb index 1 = 1)
  /\ (let f := Nat.iter n App64.released App64.start in
      PrimFloat.leb App64.start f = true
      /\ PrimFloat.leb f (App64.released f) = true
      /\ PrimFloat.ltb (App64.released f) App64.one = true
      /\ ((n < 312)%nat -> PrimFloat.ltb f (App64.released f) = true)
      /\ ((312 <= n)%nat -> App64.released f = f))
  /\ App64.released App64.zero = App64.zero
  /\ App64.released App64.one = App64.one.
Proof.
  intros Hk Ht Hg gn gS.
  assert (Hk01 : 0 < k < 1) by (destruct Hk; subst k; lra).
  destruct (iter_ease_toward k target g n Hk01) as (Hmono & Hup & Hdown).
  split; [exact Hmono|]. split; [exact Hup|]. split; [exact Hdown|].
  split.
  { intros Hn. destruct Hk as [-> | ->].
    - apply iter_ease_close with (N := 43%nat); auto using gain_015_ticks; lia.
    - apply iter_ease_close with (N := 66%nat); auto using gain_01_ticks. }
  split.
  { intros thumb index Hp -> ->.
    apply (iter_ext _ _ (fun _ => True)); auto.
    intros a _; apply updateGrowth_pinching; exact Hp. }
  split; [|split; [apply released64_trajectory|split; vm_compute; reflexivity]].
  intros thumb index Hp.
  split.
  { intros Hlo -> ->.
    apply (iter_ext _ (ease 0.1 1) (fun a => 0.85 < a <= 1)); [| |lra].
    - intros a Ha. rewrite (updateGrowth_released _ _ _ Hp).
      unfold ease; cases_R; lra.
    - intros a Ha; unfold ease; lra. }
  split.
  { intros Hhi -> ->.
    apply (iter_ext _ (ease 0.1 0) (fun a => 0 <= a < 0.15)); [| |lra].
    - intros a Ha. rewrite (updateGrowth_released _ _ _ Hp).
      unfold ease; cases_R; lra.
    - intros a Ha; unfold ease; lra. }
  pose proof (autosnap_from_09 thumb index n Hp) as Hn.
  pose proof (autosnap_from_09 thumb index (S n) Hp) as HS.
  split; [lra|]. split.
  { split; [|lra]. simpl. rewrite (updateGrowth_released _ _ _ Hp).
    set (a := Nat.iter n (updateGrowth thumb index) 0.9) in *.
    unfold ease; cases_R; lra. }
  rewrite !(updateGrowth_released _ _ _ Hp).
  split; unfold ease; cases_R; lra.
Qed.

Lemma growth_smoothing_converges_witness :
  Rabs (Nat.iter 66 (ease 0.1 1) 0.9 - 1) < 1 / 1000.
Proof.
  refine (proj1 (proj2 (proj2 (proj2
    (growth_smoothing_converges 0.1 1 0.9 66 (or_intror eq_refl) _ _)))) (le_n 66));
    lra.
Defined.

Lemma onDetections_secondary ctx h0 h1 rest s thumb index :
  wellFormed h0 -> wellFormed h1 ->
  nth_error h1 4 = Some thumb -> nth_error h1 8 = Some index ->
  distortionRef (onDetections ctx (h0 :: h1 :: rest) s)
  = {| x := 1 - 2 * ((lx thumb + lx index) / 2);
       y := 1 - 2 * ((ly thumb + ly index) / 2);
       active := pinching thumb index |}.
Proof.
  intros Hwf0 Hwf1 Ht Hi.
  destruct (wellFormed_tips h0 Hwf0) as (t0 & i0 & Ht0 & Hi0).
  unfold onDetections.
  rewrite (hand0_present ctx h0 (h1 :: rest) s t0 i0 Hwf0 Ht0 Hi0).
  rewrite (hand1_present ctx h0 h1 rest _ thumb index Hwf1 Ht Hi).
  reflexivity.
Qed.

Lemma onDetections_secondary_absent ctx hands s :
  Forall wellFormed hands -> (length hands <= 1)%nat ->
  active (distortionRef (onDetections ctx hands s)) = false.
Proof.
  intros Hwf Hlen.
  destruct hands as [|h0 [|h1 rest]]; [reflexivity| |simpl in Hlen; lia].
  inversion Hwf as [|? ? Hwf0 _]; subst.
  destruct (wellFormed_tips h0 Hwf0) as (t0 & i0 & Ht0 & Hi0).
  unfold onDetections.
  rewrite (hand0_present ctx h0 [] s t0 i0 Hwf0 Ht0 Hi0).
  reflexivity.
Qed.

(** C8: with a secondary hand present the published distortion state is
    [{x: 1 - 2 midX, y: 1 - 2 midY, active: pinching}] for the thumb/index
    midpoint of that hand; both axes lie in [-1,1] when the two landmarks
    lie in the unit square; without a secondary hand [active] is false; a
    pinching midpoint (0.25, 0.25) publishes (0.5, 0.5) with [active]. *)
Theorem secondary_hand_publishes_cursor ctx hands s :
  Forall wellFormed hands ->
  let s' := onDetections ctx hands s in
  (forall h0 h1 rest thumb index,
      hands = h0 :: h1 :: rest ->
      nth_error h1 4 = Some thumb -> nth_error h1 8 = Some index ->
      let midX := (lx thumb + lx index) / 2 in
      let midY := (ly thumb + ly index) / 2 in
      let d := JSMath.hypot ((lx thumb - lx index) * (640 / 480))
                            (ly thumb - ly index) in
      x (distortionRef s') = 1 - 2 * midX
      /\ y (distortionRef s') = 1 - 2 * midY
      /\ (active (distortionRef s') = true <-> d < 0.06)
      /\ (0 <= lx thumb <= 1 -> 0 <= ly thumb <= 1 ->
          0 <= lx index <= 1 -> 0 <= ly index <= 1 ->
          -1 <= x (distortionRef s') <= 1 /\ -1 <= y (distortionRef s') <= 1)
      /\ (d < 0.06 -> midX = 0.25 -> midY = 0.25 ->
          distortionRef s' = {| x := 0.5; y := 0.5; active := true |}))
  /\ ((length hands <= 1)%nat -> active (distortionRef s') = false).
Proof.
  intros Hwf s'; split.
  - intros h0 h1 rest thumb index -> Ht Hi midX midY d.
    inversion Hwf as [|? ? Hwf0 Hwf']; subst.
    inversion Hwf' as [|? ? Hwf1 _]; subst.
    pose proof (onDetections_secondary ctx h0 h1 rest s thumb index Hwf0 Hwf1 Ht Hi)
      as E.
    fold s' in E. rewrite E; cbn [x y active].
    assert (Hd : pinching thumb index = true <-> d < 0.06)
      by (unfold pinching; rewrite ltb_true; reflexivity).
    fold midX midY.
    split; [reflexivity|]. split; [reflexivity|]. split; [exact Hd|].
    split.
    + intros; unfold midX, midY; split; lra.
    + intros Hlt HX HY. apply Hd in Hlt. rewrite Hlt, HX, HY.
      f_equal; lra.
  - intros Hlen; apply onDetections_secondary_absent; assumption.
Qed.

Lemma secondary_hand_publishes_cursor_witness :
  distortionRef (onDetections false [handAt 0.5 0.5; handAt 0.25 0.25] (restingAt 0))
  = {| x := 0.5; y := 0.5; active := true |}.
Proof.
  refine (proj2 (proj2 (proj2 (proj2
    (proj1 (secondary_hand_publishes_cursor false
              [handAt 0.5 0.5; handAt 0.25 0.25] (restingAt 0)
              (Forall_cons (handAt 0.5 0.5) (eq_refl : wellFormed (handAt 0.5 0.5))
                 (Forall_cons (handAt 0.25 0.25)
                    (eq_refl : wellFormed (handAt 0.25 0.25)) (Forall_nil _))))
       (handAt 0.5 0.5) (handAt 0.25 0.25) []
       {| lx := 0.25; ly := 0.25 |} {| lx := 0.25; ly := 0.25 |}
       eq_refl eq_refl eq_refl)))) _ _ _).
  - change (dist {| lx := 0.25; ly := 0.25 |} {| lx := 0.25; ly := 0.25 |} < 0.06).
    rewrite dist_coincident; lra.
  - cbn [lx]; lra.
  - cbn [ly]; lra.
Defined.

(** *** Camera failure *)

Lemma startCamera_fails_static c a :
  c <> Granted -> staticBuilt a -> staticBuilt (startCamera c a).
Proof.
  unfold staticBuilt; intros Hc (Hg & Ha & Hs & Hd).
  destruct c; [| |congruence]; cbn; repeat split; auto; lra.
Qed.

Lemma step_static a e : cameraFails e -> staticBuilt a -> staticBuilt (step a e).
Proof.
  intros He Ha; pose proof Ha as (Hg & Hact & Hs & Hd).
  destruct e as [c|  |c|ctx t d|ctx t d]; cbn [step].
  - apply startCamera_fails_static; [destruct c; simpl in He; easy|].
    unfold staticBuilt; cbn; auto.
  - unfold staticBuilt; cbn; repeat split; auto; lra.
  - destruct (permissionError a); [|exact Ha].
    apply startCamera_fails_static; [destruct c; simpl in He; easy|exact Ha].
  - rewrite Hs; exact Ha.
  - rewrite Hd; exact Ha.
Qed.

Lemma run_static es : forall a,
  Forall cameraFails es -> staticBuilt a -> staticBuilt (run a es).
Proof.
  induction es as [|e es IH]; intros a Hes Ha; [exact Ha|].
  inversion Hes; subst. apply IH; [assumption|].
  apply step_static; assumption.
Qed.

(** The refused camera request, which is the [catch] of [startCamera]:
    when the request is rejected, [startCamera] returns
    normally with growth forced to 1.0, the distortion state still inactive,
    the permission-error status raised and loading cleared, and no detection
    loop started; the status is recoverable, a retry that obtains the camera
    attaches its stream; and as long as no camera stream is obtained,
    whatever else happens leaves growth at 1.0 and distortion inactive. *)
Theorem camera_failure_static_built a :
  stream a = false -> detecting a = false ->
  active (distortionRef (gesture a)) = false ->
  let a' := startCamera Denied a in
  growthRef (gesture a') = 1
  /\ active (distortionRef (gesture a')) = false
  /\ permissionError a' = true
  /\ loading a' = false
  /\ detecting a' = false
  /\ stream (step a' (Retry Granted)) = true
  /\ (forall es, Forall cameraFails es ->
        growthRef (gesture (run a' es)) = 1
        /\ active (distortionRef (gesture (run a' es))) = false
        /\ detecting (run a' es) = false).
Proof.
  intros Hs Hd Hact a'.
  assert (S' : staticBuilt a').
  { unfold staticBuilt, a'; cbn; repeat split; auto; lra. }
  destruct S' as (Hg' & Hact' & Hs' & Hd').
  do 5 (split; [assumption || reflexivity|]).
  split; [reflexivity|].
  intros es Hes.
  destruct (run_static es a' Hes) as (G & A & _ & D); [unfold staticBuilt; auto|].
  auto.
Qed.

Lemma camera_failure_static_built_witness :
  growthRef (gesture (startCamera Denied initial)) = 1
  /\ permissionError (startCamera Denied initial) = true.
Proof.
  pose proof (camera_failure_static_built initial eq_refl eq_refl eq_refl)
    as (Hg & _ & Hp & _).
  split; [exact Hg|exact Hp].
Defined.

End GestureClaims.

(** ** The shader's building blocks *)

Section ShaderFacts.
Import GLSL Rose.

Lemma clamp_unit a : 0 <= clamp a 0 1 <= 1.
Proof.
  unfold clamp; split.
  - apply Rmin_glb; [apply Rmax_r|lra].
  - apply Rmin_r.
Qed.

Lemma smoothstep_range edge0 edge1 a : 0 <= smoothstep edge0 edge1 a <= 1.
Proof.
  unfold smoothstep.
  pose proof (clamp_unit ((a - edge0) / (edge1 - edge0))) as H.
  set (t := clamp _ 0 1) in *.
  assert (0 <= t * t) by (apply Rmult_le_pos; lra).
  assert (0 <= (1 - t) * (1 - t)) by (apply Rmult_le_pos; lra).
  assert (0 <= t * t * (3 - 2 * t)) by (apply Rmult_le_pos; lra).
  assert (0 <= (1 - t) * (1 - t) * (1 + 2 * t)) by (apply Rmult_le_pos; lra).
  split; [assumption|].
  replace (t * t * (3 - 2 * t)) with (1 - (1 - t) * (1 - t) * (1 + 2 * t)) by ring.
  lra.
Qed.

Lemma fract_range a : 0 <= fract a < 1.
Proof.
  destruct (base_fp a) as [H0 H1].
  unfold fract, floor; unfold frac_part in H0, H1; lra.
Qed.

Lemma hash_range p : 0 <= hash p < 1.
Proof. apply fract_range. Qed.

(** Where [pow] is defined, a fourth power is the product. *)
Lemma pow_4 undefined_pow a : 0 <= a -> pow undefined_pow a 4.0 = a ^ 4.
Proof.
  intros Ha; unfold pow.
  destruct (Rlt_dec 0 a) as [Hpos|Hz].
  - rewrite (proj2 (ltb_true 0 a) Hpos).
    replace 4.0 with (INR 4) by (simpl; lra).
    apply Rpower_pow; exact Hpos.
  - assert (a = 0) by lra; subst a.
    rewrite (proj2 (ltb_false 0 0)) by lra.
    rewrite (proj2 (ltb_true 0 4.0)) by lra.
    simpl; ring.
Qed.

Lemma floor_spec a (z : Z) : IZR z <= a < IZR z + 1 -> floor a = IZR z.
Proof.
  intros H; unfold floor; f_equal; symmetry.
  apply Int_part_spec; lra.
Qed.

Lemma activation_eq undefined_pow u p :
  activation undefined_pow u p
  = smoothstep (-1) 1
      ((vy (finalPos undefined_pow u p) - uScanY u) + (aRandom p - 0.5) * 2).
Proof.
  unfold activation.
  replace (-1.0) with (-1) by lra. replace 1.0 with 1 by lra.
  replace 2.0 with 2 by lra. reflexivity.
Qed.

End ShaderFacts.

(** ** Claims on the construction kernel *)

Section RenderClaims.
Import GLSL Rose Doc.

Lemma scanY_linear growth : scanY growth = 10 - 22 * growth.
Proof. unfold scanY, JSMath.lerp; lra. Qed.

(** C4: the scan height is lerp(+10, -12, growth), strictly decreasing in
    growth, 10 at growth 0 and -12 at growth 1 (hence within [-12, 10] on
    [0,1]); and a particle's activation is
    smoothstep(-1, 1, (finalPosition.y - scanY) + (randomSeed - 0.5) * 2). *)
Theorem scan_plane_and_activation undefined_pow props growth elapsed p :
  Rose.growthRef props = Some growth -> 0 <= growth <= 1 ->
  uScanY (uniforms props elapsed) = JSMath.lerp 10 (-12) growth
  /\ (forall g1 g2, g1 < g2 -> scanY g2 < scanY g1)
  /\ scanY 0 = 10
  /\ scanY 1 = -12
  /\ -12 <= scanY growth <= 10
  /\ vProgress (render undefined_pow props elapsed p)
     = smoothstep (-1) 1
         ((vy (finalPos undefined_pow (uniforms props elapsed) p) - scanY growth)
          + (aRandom p - 0.5) * 2).
Proof.
  intros Hg Hrange.
  assert (E : uScanY (uniforms props elapsed) = scanY growth)
    by (unfold uniforms; cbn [uScanY]; rewrite Hg; reflexivity).
  split; [rewrite E; unfold scanY; f_equal; lra|].
  split; [intros g1 g2 Hlt; rewrite !scanY_linear; lra|].
  split; [rewrite scanY_linear; lra|].
  split; [rewrite scanY_linear; lra|].
  split; [rewrite scanY_linear; lra|].
  unfold render, main; cbn [vProgress].
  rewrite activation_eq, E; reflexivity.
Qed.

Lemma corner_in_corners seed : In (corner seed) corners.
Proof. unfold corner, corners; cases_R; simpl; auto. Qed.

Lemma corner_by_floor seed :
  0 <= seed < 1 ->
  nth_error corners (Z.to_nat (Int_part (seed * 4))) = Some (corner seed).
Proof.
  intros Hs.
  destruct (base_Int_part (seed * 4)) as [Hlo Hhi].
  set (z := Int_part (seed * 4)) in *.
  assert (Hz : (-1 < z < 4)%Z) by (split; apply lt_IZR; lra).
  assert (F : floor (seed * 4.0) = IZR z)
    by (unfold floor; replace 4.0 with 4 by lra; reflexivity).
  unfold corner; rewrite F.
  assert (Hcase : (z = 0 \/ z = 1 \/ z = 2 \/ z = 3)%Z) by lia.
  destruct Hcase as [-> | [-> | [-> | ->]]]; cases_R; try lra; reflexivity.
Qed.

Lemma spread_small seed :
  Rabs (vx (spread seed)) <= 0.25
  /\ Rabs (vy (spread seed)) <= 0.25
  /\ Rabs (vz (spread seed)) <= 0.25.
Proof.
  unfold spread, scale3, sub3s; cbn [vx vy vz].
  pose proof (hash_range {| x2 := seed; y2 := 0.1 |}).
  pose proof (hash_range {| x2 := seed; y2 := 0.2 |}).
  pose proof (hash_range {| x2 := seed; y2 := 0.3 |}).
  repeat split; apply Rabs_le; lra.
Qed.

Lemma corners_distinct : NoDup corners.
Proof.
  unfold corners, boxSize.
  repeat constructor; simpl; intuition;
    match goal with H : _ = _ |- _ => injection H; intros; lra end.
Qed.

(** C5: the displayed position is lerp(spawnCorner, finalPosition, t) with
    t = 1 - (1 - activation)^4; the spawn corner is one of the four points
    (+-12.5, 12.5, +-12.5), all at height 12.5, the one of index
    floor(randomSeed * 4) for a seed in [0,1), plus an offset computed from
    the seed alone whose components are at most 0.25 in magnitude: on each
    axis it is (h - 0.5) * 0.5, where h is the fractional part of
    sin(seed * 12.9898 + c * 78.233) * 43758.5453 with c = 0.1, 0.2, 0.3 for
    x, y, z. *)
Theorem corner_spawn_and_mix undefined_pow u p :
  0 <= aRandom p < 1 ->
  let t := 1 - (1 - activation undefined_pow u p) ^ 4 in
  let spawnCorner := add3 (corner (aRandom p)) (spread (aRandom p)) in
  let shown := vPosition (main undefined_pow u p) in
  let final := finalPos undefined_pow u p in
  vx shown = JSMath.lerp (vx spawnCorner) (vx final) t
  /\ vy shown = JSMath.lerp (vy spawnCorner) (vy final) t
  /\ vz shown = JSMath.lerp (vz spawnCorner) (vz final) t
  /\ In (corner (aRandom p)) corners
  /\ nth_error corners (Z.to_nat (Int_part (aRandom p * 4))) = Some (corner (aRandom p))
  /\ corners = [ {| vx := 12.5; vy := 12.5; vz := 12.5 |};
                 {| vx := -12.5; vy := 12.5; vz := 12.5 |};
                 {| vx := -12.5; vy := 12.5; vz := -12.5 |};
                 {| vx := 12.5; vy := 12.5; vz := -12.5 |} ]
  /\ NoDup corners
  /\ Rabs (vx (spread (aRandom p))) <= 0.25
  /\ Rabs (vy (spread (aRandom p))) <= 0.25
  /\ Rabs (vz (spread (aRandom p))) <= 0.25
  /\ vx spawnCorner
     = vx (corner (aRandom p))
       + (fract (sin (aRandom p * 12.9898 + 0.1 * 78.233) * 43758.5453) - 0.5) * 0.5
  /\ vy spawnCorner
     = vy (corner (aRandom p))
       + (fract (sin (aRandom p * 12.9898 + 0.2 * 78.233) * 43758.5453) - 0.5) * 0.5
  /\ vz spawnCorner
     = vz (corner (aRandom p))
       + (fract (sin (aRandom p * 12.9898 + 0.3 * 78.233) * 43758.5453) - 0.5) * 0.5.
Proof.
  intros Hseed t spawnCorner shown final.
  pose proof (smoothstep_range (-1.0) 1.0
                (vy (finalPos undefined_pow u p) - uScanY u
                 + (aRandom p - 0.5) * 2.0)) as Ha.
  fold (activation undefined_pow u p) in Ha.
  assert (T : 1.0 - pow undefined_pow (1.0 - activation undefined_pow u p) 4.0 = t).
  { rewrite pow_4 by lra. unfold t.
    replace (1.0 - activation undefined_pow u p)
      with (1 - activation undefined_pow u p) by lra.
    lra. }
  assert (S : shown = mix3 spawnCorner final t)
    by (unfold shown, main; cbn [vPosition]; rewrite T; reflexivity).
  rewrite S; unfold mix3, mix, JSMath.lerp; cbn [vx vy vz].
  split; [ring|]. split; [ring|]. split; [ring|].
  split; [apply corner_in_corners|].
  split; [apply corner_by_floor; exact Hseed|].
  split; [unfold corners, boxSize; repeat f_equal; lra|].
  split; [apply corners_distinct|].
  destruct (spread_small (aRandom p)) as (Sx & Sy & Sz).
  split; [exact Sx|]. split; [exact Sy|]. split; [exact Sz|].
  unfold spawnCorner, add3, spread, scale3, sub3s, hash, dot2; cbn [vx vy vz x2 y2].
  repeat split; reflexivity.
Qed.

Lemma corner_spawn_and_mix_witness :
  nth_error corners (Z.to_nat (Int_part (0 * 4)))
  = Some (corner (aRandom {| position := {| vx := 0; vy := 0; vz := 0 |};
                             aRandom := 0; aType := 0;
                             aDirection := {| vx := 0; vy := 0; vz := 0 |} |})).
Proof.
  refine (proj1 (proj2 (proj2 (proj2 (proj2
    (corner_spawn_and_mix (fun _ _ => 0)
       {| uTime := 0; uPetalCount := 3; uTwist := 0; uOpenness := 0;
          uDetail := 0; uParticleSize := 0; uScanY := 10 |}
       {| position := {| vx := 0; vy := 0; vz := 0 |};
          aRandom := 0; aType := 0;
          aDirection := {| vx := 0; vy := 0; vz := 0 |} |} _)))))).
  cbn [aRandom]; lra.
Defined.

Lemma scan_plane_and_activation_witness :
  uScanY (uniforms {| Rose.config := Scene.CINEMATIC_CONFIG;
                      Rose.growthRef := Some 0.5 |} 0)
  = JSMath.lerp 10 (-12) 0.5.
Proof.
  refine (proj1 (scan_plane_and_activation (fun _ _ => 0)
                   {| Rose.config := Scene.CINEMATIC_CONFIG;
                      Rose.growthRef := Some 0.5 |}
                   0.5 0 (particleAt 0 0 0 0 0) eq_refl _)).
  lra.
Defined.

(** *** Stem and leaf particles *)

Lemma geometry_cases rnd p :
  In p (geometry rnd) ->
  (exists i, p = flowerParticle rnd i)
  \/ (exists i, p = stemParticle rnd i)
  \/ (exists l i, p = leafParticle rnd l i).
Proof.
  unfold geometry; rewrite !in_app_iff, in_flat_map, !in_map_iff.
  intros [(i & <- & _) | [(i & <- & _) | (l & _ & Hl)]]; eauto.
  apply in_map_iff in Hl as (i & <- & _); eauto.
Qed.

Lemma stem_or_leaf rnd p :
  In p (geometry rnd) -> 0.5 < aType p ->
  vy (aDirection p) = 0
  /\ ((aType p = 1
       /\ exists theta, aDirection p = {| vx := cos theta; vy := 0; vz := sin theta |})
      \/ (aType p = 2
          /\ aDirection p = {| vx := vx (position p); vy := 0; vz := vz (position p) |})).
Proof.
  intros Hin Ht.
  destruct (geometry_cases rnd p Hin) as [(i & ->) | [(i & ->) | (l & i & ->)]];
    cbn [aType aDirection position vx vy vz flowerParticle stemParticle leafParticle]
      in *.
  - lra.
  - split; [reflexivity|left]. split; [lra|eauto].
  - split; [reflexivity|right]. split; [lra|reflexivity].
Qed.

Lemma shape_height_fixed undefined_pow u p :
  0.5 < aType p -> vy (aDirection p) = 0 ->
  vy (finalPos undefined_pow u p) = vy (position p).
Proof.
  intros Ht Hd; unfold finalPos, shape.
  rewrite (proj2 (ltb_false (aType p) 0.5)) by lra.
  destruct (gtb (aType p) 1.5); cbn [fst add3 scale3 vy]; [|reflexivity].
  rewrite Hd; ring.
Qed.

(** C10: for every Stem and Leaf particle of the geometry the direction
    vector is (cos theta, 0, sin theta) for a stem and (px, 0, pz) for a
    leaf, so its vertical component is 0, and the shape field leaves the
    vertical coordinate unchanged, for all uniforms (hence all parameter
    settings and times); so its activation is
    smoothstep(-1, 1, (y - scanY(growth)) + (seed - 0.5) * 2) of its own
    height and seed, the same for any two configurations and times. *)
Theorem stem_leaf_height_unchanged undefined_pow rnd p :
  In p (geometry rnd) -> 0.5 < aType p ->
  vy (aDirection p) = 0
  /\ ((aType p = 1
       /\ exists theta, aDirection p = {| vx := cos theta; vy := 0; vz := sin theta |})
      \/ (aType p = 2
          /\ aDirection p = {| vx := vx (position p); vy := 0; vz := vz (position p) |}))
  /\ (forall u, vy (finalPos undefined_pow u p) = vy (position p))
  /\ (forall cfg growth elapsed,
        activation undefined_pow
          (uniforms {| Rose.config := cfg; Rose.growthRef := Some growth |} elapsed) p
        = smoothstep (-1) 1
            ((vy (position p) - scanY growth) + (aRandom p - 0.5) * 2))
  /\ (forall cfg1 cfg2 growth elapsed1 elapsed2,
        activation undefined_pow
          (uniforms {| Rose.config := cfg1; Rose.growthRef := Some growth |} elapsed1) p
        = activation undefined_pow
            (uniforms {| Rose.config := cfg2; Rose.growthRef := Some growth |} elapsed2) p).
Proof.
  intros Hin Ht.
  destruct (stem_or_leaf rnd p Hin Ht) as [Hd Hkind].
  assert (A : forall cfg growth elapsed,
             activation undefined_pow
               (uniforms {| Rose.config := cfg; Rose.growthRef := Some growth |} elapsed) p
             = smoothstep (-1) 1
                 ((vy (position p) - scanY growth) + (aRandom p - 0.5) * 2)).
  { intros cfg growth elapsed.
    rewrite activation_eq, (shape_height_fixed _ _ _ Ht Hd); reflexivity. }
  split; [exact Hd|]. split; [exact Hkind|].
  split; [intros u; apply shape_height_fixed; assumption|].
  split; [exact A|].
  intros; rewrite !A; reflexivity.
Qed.

Lemma stemCount_pos : (0 < stemCount)%nat.
Proof. apply Nat.ltb_lt; vm_compute; reflexivity. Qed.

Lemma first_stem_particle_in_geometry rnd : In (stemParticle rnd 0) (geometry rnd).
Proof.
  unfold geometry; rewrite !in_app_iff; right; left.
  apply in_map, in_seq. pose proof stemCount_pos; lia.
Qed.

Lemma stem_leaf_height_unchanged_witness :
  vy (aDirection (stemParticle (fun _ => 0) 0)) = 0.
Proof.
  refine (proj1 (stem_leaf_height_unchanged (fun _ _ => 0) (fun _ => 0)
                   (stemParticle (fun _ => 0) 0)
                   (first_stem_particle_in_geometry _) _)).
  cbn [aType stemParticle]; lra.
Defined.

(** *** The distortion cursor *)

(** C1 (the code at the claim's inputs): what is drawn for a particle is
    the construction output for the current growth, whatever the distortion
    state says; an active cursor, wherever it is, displaces nothing. *)
Theorem distortion_never_reaches_render project undefined_pow cfg g planeIntersect
        elapsed p d :
  RoseExperience.display project undefined_pow cfg (App.setDistortion d g)
                         planeIntersect elapsed p
  = render undefined_pow
      {| Rose.config := cfg; Rose.growthRef := Some (App.growthRef g) |} elapsed p
  /\ RoseExperience.display project undefined_pow cfg
       (App.setDistortion
          {| App.x := App.x d; App.y := App.y d; App.active := true |} g)
       planeIntersect elapsed p
     = RoseExperience.display project undefined_pow cfg
         (App.setDistortion
            {| App.x := App.x d; App.y := App.y d; App.active := false |} g)
         planeIntersect elapsed p.
Proof. split; reflexivity. Qed.

End RenderClaims.

(** ** Azimuthal symmetry of the flower head *)

Section HeadSymmetry.
Import GLSL Rose Doc.

Lemma sin_period_Z x (m : Z) : sin (x + 2 * IZR m * PI) = sin x.
Proof.
  destruct (Z_le_gt_dec 0 m) as [Hm|Hm].
  - rewrite <- (Z2Nat.id m Hm), <- INR_IZR_INZ. apply sin_period.
  - rewrite <- (sin_period (x + 2 * IZR m * PI) (Z.to_nat (- m))).
    f_equal. rewrite INR_IZR_INZ, Z2Nat.id by lia. rewrite opp_IZR. ring.
Qed.

Lemma cos_period_Z x (m : Z) : cos (x + 2 * IZR m * PI) = cos x.
Proof.
  destruct (Z_le_gt_dec 0 m) as [Hm|Hm].
  - rewrite <- (Z2Nat.id m Hm), <- INR_IZR_INZ. apply cos_period.
  - rewrite <- (cos_period (x + 2 * IZR m * PI) (Z.to_nat (- m))).
    f_equal. rewrite INR_IZR_INZ, Z2Nat.id by lia. rewrite opp_IZR. ring.
Qed.

Lemma same_direction a b :
  cos a = cos b -> sin a = sin b -> exists k : Z, a = b + 2 * IZR k * PI.
Proof.
  intros Hc Hs.
  assert (S0 : sin (a - b) = 0) by (rewrite sin_minus, Hc, Hs; ring).
  assert (C1 : cos (a - b) = 1).
  { rewrite cos_minus, Hc, Hs.
    pose proof (sin2_cos2 b) as H; unfold Rsqr in H; lra. }
  destruct (sin_eq_0_0 _ S0) as [k Hk].
  destruct (Z.Even_or_Odd k) as [[m ->] | [m ->]].
  - exists m. rewrite mult_IZR in Hk. lra.
  - exfalso.
    assert (E : a - b = PI + 2 * IZR m * PI)
      by (rewrite Hk, plus_IZR, mult_IZR; ring).
    rewrite E, cos_period_Z, cos_PI in C1. lra.
Qed.

Lemma sqrt_ratio a b :
  a <> 0 -> sqrt (1 + (b / a)²) = sqrt (a * a + b * b) / Rabs a.
Proof.
  intros Ha.
  assert (0 < Rabs a) by (apply Rabs_pos_lt; exact Ha).
  assert (0 <= a * a + b * b) by nra.
  apply sqrt_lem_1.
  - unfold Rsqr; nra.
  - apply Rmult_le_pos; [apply sqrt_pos|left; apply Rinv_0_lt_compat; assumption].
  - unfold Rdiv. 
    replace (sqrt (a * a + b * b) * / Rabs a * (sqrt (a * a + b * b) * / Rabs a))
      with ((sqrt (a * a + b * b) * sqrt (a * a + b * b)) * (/ Rabs a * / Rabs a)) by ring.
    rewrite sqrt_sqrt by assumption.
    assert (E : / Rabs a * / Rabs a = / (a * a)).
    { rewrite <- Rinv_mult. f_equal. 
      replace (Rabs a * Rabs a) with (Rsqr (Rabs a)) by reflexivity.
      rewrite <- Rsqr_abs. reflexivity. }
    rewrite E. unfold Rsqr. field. exact Ha.
Qed.

Lemma atan2_direction a b :
  a <> 0 \/ b <> 0 ->
  cos (atan2 b a) = a / sqrt (a * a + b * b)
  /\ sin (atan2 b a) = b / sqrt (a * a + b * b).
Proof.
  intros Hab. unfold atan2, ltb.
  destruct (Rlt_dec 0 a) as [Hpos|Hnpos].
  - rewrite cos_atan, sin_atan, sqrt_ratio by lra.
    rewrite Rabs_pos_eq by lra.
    assert (0 < sqrt (a * a + b * b)) by (apply sqrt_lt_R0; nra).
    split; field; lra.
  - destruct (Rlt_dec a 0) as [Hneg|Hz].
    + assert (0 < sqrt (a * a + b * b)) by (apply sqrt_lt_R0; nra).
      assert (C : - cos (atan (b / a)) = a / sqrt (a * a + b * b)).
      { rewrite cos_atan, sqrt_ratio by lra. rewrite Rabs_left by lra. field; lra. }
      assert (S : - sin (atan (b / a)) = b / sqrt (a * a + b * b)).
      { rewrite sin_atan, sqrt_ratio by lra. rewrite Rabs_left by lra. field; lra. }
      destruct (Rlt_dec b 0).
      * unfold Rminus. rewrite cos_plus, sin_plus, cos_neg, sin_neg, cos_PI, sin_PI.
        split; [rewrite <- C|rewrite <- S]; ring.
      * rewrite neg_cos, neg_sin. auto.
    + assert (a = 0) by lra; subst a.
      replace (0 * 0 + b * b) with (Rsqr b) by (unfold Rsqr; ring).
      rewrite sqrt_Rsqr_abs.
      destruct (Rlt_dec 0 b).
      * rewrite cos_PI2, sin_PI2, Rabs_pos_eq by lra. split; field; lra.
      * destruct (Rlt_dec b 0); [|destruct Hab; lra].
        rewrite cos_neg, sin_neg, cos_PI2, sin_PI2, Rabs_left by lra.
        split; field; lra.
Qed.

Lemma rotated_direction alpha a b :
  a <> 0 \/ b <> 0 ->
  exists k : Z,
    atan2 (a * sin alpha + b * cos alpha) (a * cos alpha - b * sin alpha)
    = atan2 b a + alpha + 2 * IZR k * PI.
Proof.
  intros Hab.
  pose proof (sin2_cos2 alpha) as H1; unfold Rsqr in H1.
  set (c := cos alpha) in *; set (s := sin alpha) in *.
  assert (Hr : (a * c - b * s) * (a * c - b * s) + (a * s + b * c) * (a * s + b * c)
               = a * a + b * b).
  { replace ((a * c - b * s) * (a * c - b * s) + (a * s + b * c) * (a * s + b * c))
      with ((a * a + b * b) * (s * s + c * c)) by ring.
    rewrite H1; ring. }
  assert (Hpos : 0 < a * a + b * b) by (destruct Hab; nra).
  assert (Hab' : a * c - b * s <> 0 \/ a * s + b * c <> 0).
  { destruct (Req_dec_T (a * c - b * s) 0) as [E1|]; [|left; assumption].
    destruct (Req_dec_T (a * s + b * c) 0) as [E2|]; [|right; assumption].
    rewrite E1, E2 in Hr; lra. }
  destruct (atan2_direction a b Hab) as [C S].
  destruct (atan2_direction _ _ Hab') as [C' S'].
  rewrite Hr in C', S'.
  assert (0 < sqrt (a * a + b * b)) by (apply sqrt_lt_R0; exact Hpos).
  replace (atan2 b a + alpha) with (atan2 b a + alpha + 0) by ring.
  destruct (same_direction
              (atan2 (a * s + b * c) (a * c - b * s)) (atan2 b a + alpha)) as [k Hk].
  - rewrite C', cos_plus, C, S; fold c s; field; lra.
  - rewrite S', sin_plus, C, S; fold c s; field; lra.
  - exists k; rewrite Hk; ring.
Qed.

Lemma rotateY_length alpha p : length3 (rotateY alpha p) = length3 p.
Proof.
  unfold length3, rotateY; cbn [vx vy vz]; f_equal.
  pose proof (sin2_cos2 alpha) as H; unfold Rsqr in H.
  set (c := cos alpha) in *; set (s := sin alpha) in *.
  replace ((vx p * c - vz p * s) * (vx p * c - vz p * s) + vy p * vy p
           + (vx p * s + vz p * c) * (vx p * s + vz p * c))
    with ((vx p * vx p + vz p * vz p) * (s * s + c * c) + vy p * vy p) by ring.
  rewrite H; ring.
Qed.

Lemma polar_rotateY alpha p : polar (rotateY alpha p) = polar p.
Proof.
  unfold polar, normalize; rewrite rotateY_length; reflexivity.
Qed.

(** Turning the point by [alpha] adds [alpha] to its azimuth, up to whole
    turns; on the axis, where there is no azimuth, nothing changes. *)
Lemma azimuth_rotateY alpha p :
  azimuth (rotateY alpha p) = azimuth p
  \/ exists k : Z, azimuth (rotateY alpha p) = azimuth p + alpha + 2 * IZR k * PI.
Proof.
  unfold azimuth, normalize; rewrite rotateY_length; cbn [vx vy vz rotateY].
  set (L := length3 p).
  set (a := vx p / L); set (b := vz p / L).
  replace ((vx p * sin alpha + vz p * cos alpha) / L)
    with (a * sin alpha + b * cos alpha) by (unfold a, b, Rdiv; ring).
  replace ((vx p * cos alpha - vz p * sin alpha) / L)
    with (a * cos alpha - b * sin alpha) by (unfold a, b, Rdiv; ring).
  destruct (Req_dec_T a 0) as [Ha|Ha]; [destruct (Req_dec_T b 0) as [Hb|Hb]|].
  - left; rewrite Ha, Hb.
    replace (0 * sin alpha + 0 * cos alpha) with 0 by ring.
    replace (0 * cos alpha - 0 * sin alpha) with 0 by ring.
    reflexivity.
  - right; apply rotated_direction; right; exact Hb.
  - right; apply rotated_direction; left; exact Ha.
Qed.

Lemma petalDisplacement_eq u p :
  petalDisplacement u p
  = sin ((azimuth p + polar p * uTwist u) * uPetalCount u) * 0.15
    + smoothstep 0.0 1.5 (1.5 - polar p) * uOpenness u
      * sin ((azimuth p + polar p * uTwist u) * uPetalCount u).
Proof.
  unfold petalDisplacement, getTulipDisplacement, surfaceNoise, azimuth, polar.
  cbv zeta; ring.
Qed.

Lemma petals_rotateY u (N m : Z) p c :
  (0 < N)%Z -> uPetalCount u = IZR N ->
  sin ((azimuth (rotateY (IZR m * (2 * PI / uPetalCount u)) p) + c) * uPetalCount u)
  = sin ((azimuth p + c) * uPetalCount u).
Proof.
  intros HN Hn.
  assert (Hpos : 0 < IZR N) by (apply IZR_lt; exact HN).
  rewrite Hn.
  destruct (azimuth_rotateY (IZR m * (2 * PI / IZR N)) p) as [-> | [k ->]];
    [reflexivity|].
  replace ((azimuth p + IZR m * (2 * PI / IZR N) + 2 * IZR k * PI + c) * IZR N)
    with ((azimuth p + c) * IZR N + 2 * IZR (m + k * N) * PI)
    by (rewrite plus_IZR, mult_IZR; field; lra).
  apply sin_period_Z.
Qed.

Lemma petalDisplacement_rotateY u (N m : Z) p :
  (0 < N)%Z -> uPetalCount u = IZR N ->
  petalDisplacement u (rotateY (IZR m * (2 * PI / uPetalCount u)) p)
  = petalDisplacement u p.
Proof.
  intros HN Hn. rewrite !petalDisplacement_eq.
  rewrite polar_rotateY, (petals_rotateY u N m p _ HN Hn); reflexivity.
Qed.

(** *** The surface noise is not a function of the azimuth *)

Lemma sin_lb_value a : sin_lb a = a - a ^ 3 / 6 + a ^ 5 / 120 - a ^ 7 / 5040.
Proof.
  unfold sin_lb, sin_approx, sin_term; cbn [sum_f_R0].
  replace (INR (fact (2 * 0 + 1))) with 1 by (simpl; lra).
  replace (INR (fact (2 * 1 + 1))) with 6 by (simpl; lra).
  replace (INR (fact (2 * 2 + 1))) with 120
    by (rewrite INR_IZR_INZ; apply f_equal; vm_compute; reflexivity).
  replace (INR (fact (2 * 3 + 1))) with 5040
    by (rewrite INR_IZR_INZ; apply f_equal; vm_compute; reflexivity).
  simpl; field.
Qed.

Lemma sin_ub_value a :
  sin_ub a = a - a ^ 3 / 6 + a ^ 5 / 120 - a ^ 7 / 5040 + a ^ 9 / 362880.
Proof.
  unfold sin_ub, sin_approx, sin_term; cbn [sum_f_R0].
  replace (INR (fact (2 * 0 + 1))) with 1 by (simpl; lra).
  replace (INR (fact (2 * 1 + 1))) with 6 by (simpl; lra).
  replace (INR (fact (2 * 2 + 1))) with 120
    by (rewrite INR_IZR_INZ; apply f_equal; vm_compute; reflexivity).
  replace (INR (fact (2 * 3 + 1))) with 5040
    by (rewrite INR_IZR_INZ; apply f_equal; vm_compute; reflexivity).
  replace (INR (fact (2 * 4 + 1))) with 362880
    by (rewrite INR_IZR_INZ; apply f_equal; vm_compute; reflexivity).
  simpl; field.
Qed.

Lemma sin_at_lattice : 12688.8542 < sin 0.2942 * 43758.5453 < 12688.8543.
Proof.
  assert (H : 0 <= 0.2942 <= PI) by (pose proof PI2_1; lra).
  destruct (SIN 0.2942 (proj1 H) (proj2 H)) as [Hl Hu].
  rewrite sin_lb_value in Hl; rewrite sin_ub_value in Hu.
  simpl in Hl, Hu; lra.
Qed.

Lemma floor_IZR (z : Z) : floor (IZR z) = IZR z.
Proof. apply floor_spec; lra. Qed.

(** On a lattice point the value noise is the hash of that point. *)
Lemma noise_lattice (a b : Z) :
  noise {| x2 := IZR a; y2 := IZR b |} = hash {| x2 := IZR a; y2 := IZR b |}.
Proof.
  unfold noise, fract; cbn [x2 y2]; rewrite !floor_IZR.
  unfold mix; ring.
Qed.

Lemma hash_minus6_1 : 0.8542 < hash {| x2 := IZR (-6); y2 := IZR 1 |} < 0.8543.
Proof.
  pose proof sin_at_lattice as H.
  unfold hash, dot2; cbn [x2 y2].
  replace (IZR (-6) * 12.9898 + IZR 1 * 78.233) with 0.2942 by lra.
  unfold fract; rewrite (floor_spec _ 12688) by lra.
  lra.
Qed.

Lemma hash_6_minus1 : 0.1457 < hash {| x2 := IZR 6; y2 := IZR (-1) |} < 0.1458.
Proof.
  pose proof sin_at_lattice as H.
  unfold hash, dot2; cbn [x2 y2].
  replace (IZR 6 * 12.9898 + IZR (-1) * 78.233) with (Ropp 0.2942) by lra.
  rewrite sin_neg.
  unfold fract; rewrite (floor_spec _ (-12689)) by lra.
  lra.
Qed.

(** With an integer petal count the noise term alone breaks the symmetry:
    at time 0 with two petals and detail 0.5, the half turn of
    (-1.5, 1, 0.25) is (1.5, 1, -0.25); the noise samples the lattice points
    (-6, 1) and (6, -1), whose hashes differ. *)
Lemma surface_noise_breaks_symmetry :
  rotateY (2 * PI / uPetalCount twoPetals) {| vx := -1.5; vy := 1; vz := 0.25 |}
  = {| vx := 1.5; vy := 1; vz := -0.25 |}
  /\ getTulipDisplacement twoPetals {| vx := 1.5; vy := 1; vz := -0.25 |}
     <> getTulipDisplacement twoPetals {| vx := -1.5; vy := 1; vz := 0.25 |}.
Proof.
  assert (Rot : rotateY (2 * PI / uPetalCount twoPetals)
                        {| vx := -1.5; vy := 1; vz := 0.25 |}
                = {| vx := 1.5; vy := 1; vz := -0.25 |}).
  { cbn [uPetalCount twoPetals]; unfold rotateY; cbn [vx vy vz].
    replace (2 * PI / 2) with PI by field.
    rewrite cos_PI, sin_PI; f_equal; lra. }
  split; [exact Rot|].
  pose proof (petalDisplacement_rotateY twoPetals 2 1
                {| vx := -1.5; vy := 1; vz := 0.25 |} eq_refl eq_refl) as P.
  rewrite Rmult_1_l, Rot in P.
  assert (N1 : surfaceNoise twoPetals {| vx := -1.5; vy := 1; vz := 0.25 |}
               = hash {| x2 := IZR (-6); y2 := IZR 1 |} * 0.05 * 0.5).
  { unfold surfaceNoise, add2s, scale2; cbn [x2 y2 vx vz uTime uDetail twoPetals].
    replace (-1.5 * 4.0 + 0 * 0.05) with (IZR (-6)) by lra.
    replace (0.25 * 4.0 + 0 * 0.05) with (IZR 1) by lra.
    rewrite noise_lattice; reflexivity. }
  assert (N2 : surfaceNoise twoPetals {| vx := 1.5; vy := 1; vz := -0.25 |}
               = hash {| x2 := IZR 6; y2 := IZR (-1) |} * 0.05 * 0.5).
  { unfold surfaceNoise, add2s, scale2; cbn [x2 y2 vx vz uTime uDetail twoPetals].
    replace (1.5 * 4.0 + 0 * 0.05) with (IZR 6) by lra.
    replace (-0.25 * 4.0 + 0 * 0.05) with (IZR (-1)) by lra.
    rewrite noise_lattice; reflexivity. }
  unfold petalDisplacement in P; rewrite N1, N2 in P.
  pose proof hash_minus6_1; pose proof hash_6_minus1.
  lra.
Qed.

(** A fractional petal count breaks the symmetry at the cut of [atan]:
    with petalCount = 4/3, twist, openness and detail 0, the position
    (1, 1, 0) has displacement 0, and the position turned by
    2 PI / petalCount, which is (0, 1, -1), has not. *)
Lemma fractional_petals_break_symmetry :
  0 < uPetalCount fourThirdsPetals
  /\ getTulipDisplacement fourThirdsPetals {| vx := 1; vy := 1; vz := 0 |} = 0
  /\ getTulipDisplacement fourThirdsPetals
       (rotateY (2 * PI / uPetalCount fourThirdsPetals) {| vx := 1; vy := 1; vz := 0 |})
     <> getTulipDisplacement fourThirdsPetals {| vx := 1; vy := 1; vz := 0 |}.
Proof.
  assert (Hplain : forall p,
             getTulipDisplacement fourThirdsPetals p
             = sin (azimuth p * (4 / 3)) * 0.15).
  { intros p.
    assert (E : getTulipDisplacement fourThirdsPetals p
                = petalDisplacement fourThirdsPetals p)
      by (unfold petalDisplacement, surfaceNoise; cbn [uDetail fourThirdsPetals]; ring).
    rewrite E, petalDisplacement_eq.
    cbn [uTwist uOpenness uPetalCount fourThirdsPetals].
    replace (azimuth p + polar p * 0) with (azimuth p) by ring.
    ring. }
  assert (H2 : 0 < sqrt 2) by (apply sqrt_lt_R0; lra).
  assert (L1 : length3 {| vx := 1; vy := 1; vz := 0 |} = sqrt 2)
    by (unfold length3; cbn [vx vy vz]; f_equal; ring).
  assert (A1 : azimuth {| vx := 1; vy := 1; vz := 0 |} = 0).
  { unfold azimuth, normalize; rewrite L1; cbn [vx vz].
    unfold atan2. rewrite (proj2 (ltb_true 0 (1 / sqrt 2))).
    - replace (0 / sqrt 2 / (1 / sqrt 2)) with 0 by (field; lra).
      apply atan_0.
    - apply Rdiv_lt_0_compat; lra. }
  assert (R1 : rotateY (2 * PI / uPetalCount fourThirdsPetals)
                       {| vx := 1; vy := 1; vz := 0 |}
               = {| vx := 0; vy := 1; vz := -1 |}).
  { cbn [uPetalCount fourThirdsPetals]; unfold rotateY; cbn [vx vy vz].
    replace (2 * PI / (4 / 3)) with (3 * (PI / 2)) by field.
    rewrite cos_3PI2, sin_3PI2; f_equal; ring. }
  assert (L2 : length3 {| vx := 0; vy := 1; vz := -1 |} = sqrt 2)
    by (unfold length3; cbn [vx vy vz]; f_equal; ring).
  assert (A2 : azimuth {| vx := 0; vy := 1; vz := -1 |} = - (PI / 2)).
  { unfold azimuth, normalize; rewrite L2; cbn [vx vz].
    replace (0 / sqrt 2) with 0 by (field; lra).
    assert (Hneg : -1 / sqrt 2 < 0).
    { replace (-1 / sqrt 2) with (- (1 / sqrt 2)) by (field; lra).
      apply Ropp_lt_gt_0_contravar, Rdiv_lt_0_compat; lra. }
    unfold atan2.
    rewrite (proj2 (ltb_false 0 0)) by lra.
    rewrite (proj2 (ltb_false 0 (-1 / sqrt 2))) by lra.
    rewrite (proj2 (ltb_true (-1 / sqrt 2) 0)) by exact Hneg.
    reflexivity. }
  assert (D1 : getTulipDisplacement fourThirdsPetals {| vx := 1; vy := 1; vz := 0 |} = 0).
  { rewrite Hplain, A1.
    replace (0 * (4 / 3)) with 0 by ring. rewrite sin_0; ring. }
  split; [cbn [uPetalCount fourThirdsPetals]; lra|].
  split; [exact D1|].
  rewrite D1, R1, Hplain, A2.
  replace (- (PI / 2) * (4 / 3)) with (- (2 * PI / 3)) by field.
  rewrite sin_neg.
  assert (0 < sin (2 * PI / 3)).
  { pose proof PI_RGT_0. apply sin_gt_0; lra. }
  lra.
Qed.

(** C3, as the document states it, fails twice over: for a petal count that
    is not an integer (4/3, at the position (1, 1, 0)), and, with an integer
    petal count, through the surface noise (two petals, detail 0.5, at the
    position (-1.5, 1, 0.25)).  In both cases petalCount > 0 and the position
    turned by 2 PI / petalCount has a different displacement. *)
Lemma head_periodicity_counterexample :
  (0 < uPetalCount fourThirdsPetals
   /\ getTulipDisplacement fourThirdsPetals
        (rotateY (2 * PI / uPetalCount fourThirdsPetals)
                 {| vx := 1; vy := 1; vz := 0 |})
      <> getTulipDisplacement fourThirdsPetals {| vx := 1; vy := 1; vz := 0 |})
  /\ (0 < uPetalCount twoPetals
      /\ getTulipDisplacement twoPetals
           (rotateY (2 * PI / uPetalCount twoPetals)
                    {| vx := -1.5; vy := 1; vz := 0.25 |})
         <> getTulipDisplacement twoPetals {| vx := -1.5; vy := 1; vz := 0.25 |}).
Proof.
  split.
  - destruct fractional_petals_break_symmetry as (Hpos & _ & Hne); auto.
  - destruct surface_noise_breaks_symmetry as [Rot Hne].
    split; [cbn [uPetalCount twoPetals]; lra|].
    rewrite Rot; exact Hne.
Qed.

(** C3 (amended): for a positive integer petalCount, any twist, openness and
    time, the petal part of the head displacement (fold and bloom, that is
    the displacement without its surface-noise term) is unchanged when the
    base position is turned about the vertical axis by 2 PI / petalCount, or
    by any whole number of such turns in either direction, the polar angle
    staying fixed; so is the whole displacement when detail is 0. *)
Theorem head_displacement_periodic u (N m : Z) p :
  (0 < N)%Z -> uPetalCount u = IZR N ->
  let turned := rotateY (IZR m * (2 * PI / uPetalCount u)) p in
  polar turned = polar p
  /\ petalDisplacement u turned = petalDisplacement u p
  /\ (uDetail u = 0 -> getTulipDisplacement u turned = getTulipDisplacement u p).
Proof.
  intros HN Hn turned.
  assert (P : petalDisplacement u turned = petalDisplacement u p)
    by (apply (petalDisplacement_rotateY u N m p HN Hn)).
  split; [apply polar_rotateY|]. split; [exact P|].
  intros Hd.
  assert (E : forall q, getTulipDisplacement u q = petalDisplacement u q)
    by (intros q; unfold petalDisplacement, surfaceNoise; rewrite Hd; ring).
  rewrite !E; exact P.
Qed.

Lemma head_displacement_periodic_witness :
  petalDisplacement
    {| uTime := 0; uPetalCount := IZR 3; uTwist := 0.8; uOpenness := 0.6;
       uDetail := 0.5; uParticleSize := 0.022; uScanY := 10 |}
    (rotateY (IZR 1 * (2 * PI / IZR 3)) {| vx := 1; vy := 1; vz := 0 |})
  = petalDisplacement
      {| uTime := 0; uPetalCount := IZR 3; uTwist := 0.8; uOpenness := 0.6;
         uDetail := 0.5; uParticleSize := 0.022; uScanY := 10 |}
      {| vx := 1; vy := 1; vz := 0 |}.
Proof.
  exact (proj1 (proj2
    (head_displacement_periodic
       {| uTime := 0; uPetalCount := IZR 3; uTwist := 0.8; uOpenness := 0.6;
          uDetail := 0.5; uParticleSize := 0.022; uScanY := 10 |}
       3 1 {| vx := 1; vy := 1; vz := 0 |} eq_refl eq_refl))).
Defined.

End HeadSymmetry.

(** * Further properties of the code *)

(** ** The gesture interpreter beyond the documented scenarios *)

Section GestureInvariants.
Import App Doc.

Lemma updateGrowth_range thumb index g :
  0 <= g <= 1 -> 0 <= updateGrowth thumb index g <= 1.
Proof.
  intros Hg; unfold updateGrowth.
  pose proof (targetGrowth_range ((ly thumb + ly index) / 2)) as Ht.
  destruct (pinching thumb index); unfold ease; [lra|].
  cases_R; lra.
Qed.

(** What a frame can do to growth: nothing, or one update from the tips of
    the first hand. *)
Lemma onDetections_growth_cases ctx hands s :
  growthRef (onDetections ctx hands s) = growthRef s
  \/ exists h rest thumb index,
       hands = h :: rest /\ tips h = Some (thumb, index)
       /\ growthRef (onDetections ctx hands s)
          = updateGrowth thumb index (growthRef s).
Proof.
  unfold onDetections, hand0.
  destruct hands as [|h rest]; [left; reflexivity|].
  destruct (tips h) as [[thumb index]|] eqn:Et; [|left; reflexivity].
  right; exists h, rest, thumb, index.
  split; [reflexivity|]. split; [exact Et|].
  destruct (ctx && negb (drawHand h)); [reflexivity|].
  destruct (hand1_growth ctx (h :: rest)
              (setGrowth (updateGrowth thumb index (growthRef (setIsPinching (pinching thumb index) s)))
                         (setIsPinching (pinching thumb index) s))) as [-> _].
  reflexivity.
Qed.

Lemma onDetections_growth_range ctx hands s :
  0 <= growthRef s <= 1 -> 0 <= growthRef (onDetections ctx hands s) <= 1.
Proof.
  intros Hg.
  destruct (onDetections_growth_cases ctx hands s)
    as [-> | (h & rest & thumb & index & _ & _ & ->)]; [exact Hg|].
  apply updateGrowth_range; exact Hg.
Qed.

Lemma predictWebcam_growth_range ctx t d a :
  0 <= growthRef (gesture a) <= 1 ->
  0 <= growthRef (gesture (predictWebcam ctx t d a)) <= 1.
Proof.
  intros Hg; unfold predictWebcam.
  destruct (handLandmarker a); [|exact Hg].
  destruct (neqb t (lastVideoTimeRef a)); [|exact Hg].
  destruct d as [hands|]; cbn [gesture]; [|exact Hg].
  apply onDetections_growth_range; exact Hg.
Qed.

Lemma startCamera_growth_range c a :
  0 <= growthRef (gesture a) <= 1 ->
  0 <= growthRef (gesture (startCamera c a)) <= 1.
Proof. intros Hg; destruct c; cbn; lra. Qed.

Lemma step_growth_range a e :
  0 <= growthRef (gesture a) <= 1 -> 0 <= growthRef (gesture (step a e)) <= 1.
Proof.
  intros Hg; destruct e as [c| |c|ctx t d|ctx t d]; cbn [step].
  - apply startCamera_growth_range; exact Hg.
  - cbn; lra.
  - destruct (permissionError a); [apply startCamera_growth_range|]; exact Hg.
  - destruct (stream a); [apply predictWebcam_growth_range|]; exact Hg.
  - destruct (detecting a); [apply predictWebcam_growth_range|]; exact Hg.
Qed.

(** Growth is a fraction for the whole life of the application: whatever
    the camera, the detector and the hands do, malformed hands and thrown
    detections included, it stays within [0, 1]. *)
Theorem growth_stays_a_fraction a es :
  0 <= growthRef (gesture a) <= 1 ->
  0 <= growthRef (gesture (run a es)) <= 1.
Proof.
  revert a; induction es as [|e es IH]; intros a Hg; [exact Hg|].
  apply IH, step_growth_range; exact Hg.
Qed.

Lemma growth_stays_a_fraction_witness :
  0 <= growthRef (gesture (run initial
         [MediaPipeReady Granted; LoadedData false 0 (Some [handAt 0.5 0.8])])) <= 1.
Proof.
  apply (growth_stays_a_fraction initial); cbn [growthRef gesture initial]; lra.
Defined.

(** A video frame is interpreted once: a second call of [predictWebcam]
    at the same video time, whatever it detects, leaves the control signals
    and the recorded time as the first call left them. *)
Theorem same_video_time_is_skipped ctx ctx' t d d' a :
  gesture (predictWebcam ctx' t d' (predictWebcam ctx t d a))
  = gesture (predictWebcam ctx t d a)
  /\ lastVideoTimeRef (predictWebcam ctx' t d' (predictWebcam ctx t d a))
     = lastVideoTimeRef (predictWebcam ctx t d a)
  /\ (handLandmarker a = true -> lastVideoTimeRef (predictWebcam ctx t d a) = t).
Proof.
  unfold predictWebcam.
  destruct (handLandmarker a) eqn:Eh; cbn [handLandmarker lastVideoTimeRef gesture];
    rewrite ?Eh; cbn [handLandmarker lastVideoTimeRef gesture].
  - unfold neqb. destruct (Req_dec_T t (lastVideoTimeRef a)) as [E|E];
      cbn [handLandmarker lastVideoTimeRef gesture].
    + rewrite <- E. destruct (Req_dec_T t t); [|congruence].
      repeat split; reflexivity.
    + destruct (Req_dec_T t t); [|congruence].
      repeat split; reflexivity.
  - repeat split; intros; congruence.
Qed.

Lemma same_video_time_is_skipped_witness :
  lastVideoTimeRef
    (predictWebcam false 0 (Some [handAt 0.5 0.8])
       (step initial (MediaPipeReady Granted))) = 0.
Proof.
  exact (proj2 (proj2 (same_video_time_is_skipped false false 0
                         (Some [handAt 0.5 0.8]) None
                         (step initial (MediaPipeReady Granted)))) eq_refl).
Defined.

(** The two hands drive separate signals: growth and the pinching flag
    after a frame are those of the frame with the first hand alone, and the
    published distortion state does not depend on the growth or the pinching
    flag the frame started from. *)
Theorem hands_drive_separate_signals ctx h rest s g b :
  growthRef (onDetections ctx (h :: rest) s) = growthRef (onDetections ctx [h] s)
  /\ isPinching (onDetections ctx (h :: rest) s) = isPinching (onDetections ctx [h] s)
  /\ distortionRef (onDetections ctx (h :: rest) (setGrowth g (setIsPinching b s)))
     = distortionRef (onDetections ctx (h :: rest) s).
Proof.
  unfold onDetections, hand0.
  destruct (tips h) as [[thumb index]|]; [|repeat split; reflexivity].
  destruct (ctx && negb (drawHand h)); [repeat split; reflexivity|].
  split; [|split].
  - rewrite (proj1 (hand1_growth ctx (h :: rest) _)), (proj1 (hand1_growth ctx [h] _)).
    reflexivity.
  - rewrite (proj2 (hand1_growth ctx (h :: rest) _)), (proj2 (hand1_growth ctx [h] _)).
    reflexivity.
  - unfold hand1. destruct rest as [|h1 rest]; [reflexivity|].
    destruct (tips h1) as [[t1 i1]|]; [|reflexivity].
    destruct (ctx && negb (drawHand h1)); reflexivity.
Qed.

End GestureInvariants.

Section GestureEdges.
Import App Doc Terms.

Lemma drawHand_needs_21 h : drawHand h = true -> (21 <= length h)%nat.
Proof.
  unfold drawHand; intros H.
  rewrite forallb_forall in H.
  specialize (H (19, 20)%nat).
  assert (Hin : In (19, 20)%nat CONNECTIONS) by (unfold CONNECTIONS; simpl; tauto).
  apply H in Hin. apply andb_prop in Hin as [_ Hin].
  apply Nat.ltb_lt in Hin; cbn [snd] in Hin; lia.
Qed.

Lemma tips_need_9 h : (length h <= 8)%nat -> tips h = None.
Proof.
  intros Hlen; unfold tips.
  assert (E : nth_error h 8 = None) by (apply nth_error_None; exact Hlen).
  rewrite E; destruct (nth_error h 4); reflexivity.
Qed.

(** A first hand that lacks landmark 4 or 8 makes the frame a no-op: the
    read throws before anything is written, and the second hand is never
    looked at.  A first hand with landmarks 4 and 8 but fewer than 21, when
    the overlay has a drawing context, updates growth and then throws in
    [drawHand]: the distortion state is left as it was, whatever the second
    hand does. *)
Theorem short_first_hand_cuts_the_frame ctx h rest s :
  ((length h <= 8)%nat -> onDetections ctx (h :: rest) s = s)
  /\ (forall thumb index,
        nth_error h 4 = Some thumb -> nth_error h 8 = Some index ->
        (length h < 21)%nat -> ctx = true ->
        onDetections ctx (h :: rest) s
        = setGrowth (updateGrowth thumb index (growthRef s))
                    (setIsPinching (pinching thumb index) s)).
Proof.
  split.
  - intros Hlen; unfold onDetections, hand0.
    rewrite (tips_need_9 h Hlen); reflexivity.
  - intros thumb index Ht Hi Hlen ->.
    unfold onDetections, hand0.
    rewrite (tips_some _ _ _ Ht Hi).
    destruct (drawHand h) eqn:Ed.
    + apply drawHand_needs_21 in Ed; lia.
    + reflexivity.
Qed.

Lemma short_first_hand_cuts_the_frame_witness :
  onDetections true [partialHand 3 0.5 0.5; handAt 0.25 0.25] (restingAt 0.5)
  = restingAt 0.5.
Proof.
  apply (proj1 (short_first_hand_cuts_the_frame true (partialHand 3 0.5 0.5)
                  [handAt 0.25 0.25] (restingAt 0.5))).
  cbn; lia.
Defined.

(** The pinch target as a function of the midpoint height: 0 below 0.29,
    1 above 0.71, the line (y - 0.2) / 0.6 in between; it never decreases
    with y, and it never takes a value strictly between 0 and 0.15 or
    strictly between 0.85 and 1. *)
Theorem pinch_target_shape y :
  (y < 0.29 -> targetGrowth y = 0)
  /\ (0.71 < y -> targetGrowth y = 1)
  /\ (0.29 <= y <= 0.71 -> targetGrowth y = (y - 0.2) / 0.6)
  /\ (forall y', y <= y' -> targetGrowth y <= targetGrowth y')
  /\ ~ (0 < targetGrowth y < 0.15)
  /\ ~ (0.85 < targetGrowth y < 1).
Proof.
  assert (Shape : forall z,
             (z < 0.29 -> targetGrowth z = 0)
             /\ (0.71 < z -> targetGrowth z = 1)
             /\ (0.29 <= z <= 0.71 -> targetGrowth z = (z - 0.2) / 0.6)).
  { intros z. unfold targetGrowth, minY, maxY.
    replace (0.8 - 0.2) with 0.6 by lra.
    set (raw := (z - 0.2) / 0.6).
    assert (Hraw : raw * 0.6 = z - 0.2) by (unfold raw; field; lra).
    unfold Rmax, Rmin.
    destruct (Rle_dec 1 raw); destruct (Rle_dec 0 1); destruct (Rle_dec 0 raw);
      try lra; cases_R; repeat split; intros; lra. }
  destruct (Shape y) as (Hlo & Hhi & Hmid).
  split; [exact Hlo|]. split; [exact Hhi|]. split; [exact Hmid|].
  assert (Hy : y < 0.29 \/ 0.29 <= y <= 0.71 \/ 0.71 < y) by lra.
  split; [|split].
  - intros y' Hle.
    destruct (Shape y') as (Hlo' & Hhi' & Hmid').
    pose proof (targetGrowth_range y); pose proof (targetGrowth_range y').
    assert (Hy' : y' < 0.29 \/ 0.29 <= y' <= 0.71 \/ 0.71 < y') by lra.
    destruct Hy as [H1 | [H1 | H1]]; destruct Hy' as [H2 | [H2 | H2]];
      try lra;
      rewrite ?(Hlo H1), ?(Hmid H1), ?(Hhi H1), ?(Hlo' H2), ?(Hmid' H2), ?(Hhi' H2);
      lra.
  - destruct Hy as [H1 | [H1 | H1]];
      rewrite ?(Hlo H1), ?(Hmid H1), ?(Hhi H1); lra.
  - destruct Hy as [H1 | [H1 | H1]];
      rewrite ?(Hlo H1), ?(Hmid H1), ?(Hhi H1); lra.
Qed.

Lemma pinch_target_shape_witness : targetGrowth 0.5 = (0.5 - 0.2) / 0.6.
Proof.
  apply (proj1 (proj2 (proj2 (pinch_target_shape 0.5)))); lra.
Defined.

(** The pinch test without the square root: the tips pinch exactly when
    (4/3 dx)^2 + dy^2 < 0.0036, so tips side by side pinch within 0.045 of
    each other and tips one above the other within 0.06; the test does not
    care which tip is which. *)
Theorem pinch_is_an_ellipse thumb index :
  let dx := lx thumb - lx index in
  let dy := ly thumb - ly index in
  (pinching thumb index = true
   <-> (dx * (4 / 3)) * (dx * (4 / 3)) + dy * dy < 0.0036)
  /\ (dy = 0 -> (pinching thumb index = true <-> Rabs dx < 0.045))
  /\ (dx = 0 -> (pinching thumb index = true <-> Rabs dy < 0.06))
  /\ pinching index thumb = pinching thumb index.
Proof.
  intros dx dy.
  assert (Core : forall a b : Landmark,
             pinching a b = true
             <-> ((lx a - lx b) * (4 / 3)) * ((lx a - lx b) * (4 / 3))
                 + (ly a - ly b) * (ly a - ly b) < 0.0036).
  { intros a b. unfold pinching; rewrite ltb_true.
    unfold dist, JSMath.hypot, aspectRatio.
    replace (640 / 480) with (4 / 3) by field.
    set (q := (lx a - lx b) * (4 / 3) * ((lx a - lx b) * (4 / 3))
              + (ly a - ly b) * (ly a - ly b)).
    assert (0 <= q).
    { pose proof (Rle_0_sqr ((lx a - lx b) * (4 / 3))) as H1.
      pose proof (Rle_0_sqr (ly a - ly b)) as H2.
      unfold Rsqr in H1, H2; unfold q; lra. }
    assert (S6 : sqrt 0.0036 = 0.06) by (apply sqrt_lem_1; lra).
    rewrite <- S6.
    split; intros Hlt.
    - apply sqrt_lt_0_alt; exact Hlt.
    - apply sqrt_lt_1_alt; lra. }
  pose proof (Core thumb index) as C; fold dx dy in C.
  split; [exact C|]. split; [|split].
  - intros Hdy; rewrite C, Hdy. split; intros H.
    + apply Rabs_def1; nra.
    + apply Rabs_def2 in H; nra.
  - intros Hdx; rewrite C, Hdx. split; intros H.
    + apply Rabs_def1; nra.
    + apply Rabs_def2 in H; nra.
  - destruct (pinching thumb index) eqn:E1; destruct (pinching index thumb) eqn:E2;
      try reflexivity; exfalso.
    + apply Core in E1. assert (pinching index thumb = true) by (apply Core; nra).
      congruence.
    + apply Core in E2. assert (pinching thumb index = true) by (apply Core; nra).
      congruence.
Qed.

Lemma pinch_is_an_ellipse_witness :
  pinching {| lx := 0.5; ly := 0.5 |} {| lx := 0.5; ly := 0.5 |} = true.
Proof.
  refine (proj2 (proj1 (proj2 (pinch_is_an_ellipse {| lx := 0.5; ly := 0.5 |}
                                 {| lx := 0.5; ly := 0.5 |})) _) _).
  - cbn [ly]; lra.
  - cbn [lx]; rewrite Rabs_pos_eq; lra.
Defined.

End GestureEdges.

(** ** The life cycle around the detection loop *)

Section LifeCycle.
Import App Doc Terms.

(** With no error status, no stream and no loop, nothing that can still
    happen changes anything. *)
Lemma idle_step a e :
  permissionError a = false -> stream a = false -> detecting a = false ->
  afterSetup e -> step a e = a.
Proof.
  intros Hp Hs Hd He.
  destruct e as [c| |c|ctx t d|ctx t d]; cbn [step]; try (destruct He).
  - rewrite Hp; reflexivity.
  - rewrite Hs; reflexivity.
  - rewrite Hd; reflexivity.
Qed.

Lemma idle_run es : forall a,
  permissionError a = false -> stream a = false -> detecting a = false ->
  Forall afterSetup es -> run a es = a.
Proof.
  induction es as [|e es IH]; intros a Hp Hs Hd Hes; [reflexivity|].
  inversion Hes; subst. cbn [run fold_left].
  rewrite (idle_step a e) by assumption. apply IH; assumption.
Qed.

(** When the hand landmarker fails to load, growth is forced to 1 and
    loading is cleared, but no error status is raised and the camera is
    never asked for: the retry button is not offered, and nothing that can
    happen afterwards changes the state again. *)
Theorem detector_failure_is_final a es :
  permissionError a = false -> stream a = false -> detecting a = false ->
  Forall afterSetup es ->
  let a' := step a MediaPipeFailed in
  run a' es = a'
  /\ growthRef (gesture a') = 1
  /\ loading a' = false
  /\ permissionError a' = false
  /\ step a' (Retry Granted) = a'.
Proof.
  intros Hp Hs Hd Hes a'.
  split; [apply idle_run; assumption|].
  split; [cbn; lra|]. split; [reflexivity|]. split; [exact Hp|].
  cbn [step]. replace (permissionError a') with false by (symmetry; exact Hp).
  reflexivity.
Qed.

Lemma detector_failure_is_final_witness :
  run (step initial MediaPipeFailed) [Retry Granted; AnimationFrame false 0 None]
  = step initial MediaPipeFailed.
Proof.
  refine (proj1 (detector_failure_is_final initial
                   [Retry Granted; AnimationFrame false 0 None]
                   eq_refl eq_refl eq_refl _)).
  repeat constructor.
Defined.

(** In a browser without [navigator.mediaDevices.getUserMedia],
    [startCamera] neither throws nor reports: the loading status stays on,
    the control signals keep their values (growth is not forced to 1), no
    error status is raised and so no retry is offered; nothing that can
    happen afterwards changes the state again. *)
Theorem missing_camera_api_is_silent a es :
  permissionError a = false -> stream a = false -> detecting a = false ->
  Forall afterSetup es ->
  let a' := step a (MediaPipeReady Unsupported) in
  run a' es = a'
  /\ gesture a' = gesture a
  /\ loading a' = true
  /\ permissionError a' = false.
Proof.
  intros Hp Hs Hd Hes a'.
  split; [apply idle_run; assumption || reflexivity|].
  repeat split; reflexivity.
Qed.

Lemma missing_camera_api_is_silent_witness :
  growthRef (gesture (run (step initial (MediaPipeReady Unsupported))
                          [Retry Granted; AnimationFrame false 0 None])) = 0.
Proof.
  assert (Hes : Forall afterSetup [Retry Granted; AnimationFrame false 0 None])
    by (repeat constructor).
  rewrite (proj1 (missing_camera_api_is_silent initial
                    [Retry Granted; AnimationFrame false 0 None]
                    eq_refl eq_refl eq_refl Hes)).
  reflexivity.
Defined.

(** After a refused camera, the retry button works: a retry that is
    granted clears the error status, and once the video has data the
    detection loop runs; the flower stays fully built as long as no hand is
    in view. *)
Theorem retry_starts_detection a ctx t (frames : list (bool * R)) :
  handLandmarker a = true ->
  let a1 := step (startCamera Denied a) (Retry Granted) in
  let a2 := step a1 (LoadedData ctx t (Some [])) in
  permissionError a1 = false
  /\ stream a1 = true
  /\ detecting a2 = true
  /\ loading a2 = false
  /\ growthRef (gesture
       (run a2 (map (fun f => AnimationFrame (fst f) (snd f) (Some [])) frames))) = 1.
Proof.
  intros Hh a1 a2.
  assert (J2 : handLandmarker a2 = true /\ detecting a2 = true
               /\ growthRef (gesture a2) = 1 /\ loading a2 = false).
  { unfold a2, a1; cbn [step startCamera permissionError stream].
    unfold predictWebcam.
    cbn [handLandmarker lastVideoTimeRef gesture detecting loading].
    rewrite Hh.
    destruct (neqb t (lastVideoTimeRef a));
      cbn [growthRef gesture setGrowth onDetections hand0 hand1 caught setIsPinching
           setIsDistorting setDistortion handLandmarker detecting loading];
      repeat split; auto; lra. }
  destruct J2 as (H2 & D2 & G2 & L2).
  split; [reflexivity|]. split; [reflexivity|].
  split; [exact D2|]. split; [exact L2|].
  assert (Inv : forall fs b,
            handLandmarker b = true -> detecting b = true ->
            growthRef (gesture b) = 1 ->
            growthRef (gesture
              (run b (map (fun f => AnimationFrame (fst f) (snd f) (Some [])) fs))) = 1).
  { induction fs as [|f fs IH]; intros b Hb Hd Hg; [exact Hg|].
    cbn [map run fold_left].
    assert (S : handLandmarker (step b (AnimationFrame (fst f) (snd f) (Some []))) = true
                /\ detecting (step b (AnimationFrame (fst f) (snd f) (Some []))) = true
                /\ growthRef (gesture (step b (AnimationFrame (fst f) (snd f) (Some []))))
                   = 1).
    { cbn [step]; rewrite Hd; unfold predictWebcam; rewrite Hb.
      destruct (neqb (snd f) (lastVideoTimeRef b));
        cbn [growthRef gesture setGrowth onDetections hand0 hand1 caught setIsPinching
             setIsDistorting setDistortion handLandmarker detecting loading];
        auto. }
    destruct S as (S1 & S2 & S3). apply IH; assumption. }
  apply Inv; assumption.
Qed.

(** C9 (the code where the camera cannot be acquired at all): in a browser
    without [navigator.mediaDevices.getUserMedia], [startCamera] takes no
    branch: growth and the distortion state are left as they were (growth 0
    from the initial state, not 1), loading stays on, no status is raised
    and so no retry is offered, and nothing that can still happen changes
    that; the landmarker's failure forces growth but raises no status
    either.  Only the rejected request does what the document says: growth
    1 and the error status. *)
Theorem camera_unavailable_is_not_handled a es :
  permissionError a = false -> stream a = false -> detecting a = false ->
  Forall afterSetup es ->
  let a' := startCamera Unsupported a in
  gesture a' = gesture a
  /\ loading a' = true
  /\ permissionError a' = false
  /\ run a' es = a'
  /\ growthRef (gesture (run (startCamera Unsupported initial) es)) = 0
  /\ permissionError (step a MediaPipeFailed) = false
  /\ growthRef (gesture (startCamera Denied a)) = 1
  /\ permissionError (startCamera Denied a) = true.
Proof.
  intros Hp Hs Hd Hes a'.
  split; [reflexivity|]. split; [reflexivity|]. split; [reflexivity|].
  split; [apply idle_run; assumption || reflexivity|].
  split.
  { rewrite idle_run by (assumption || reflexivity). reflexivity. }
  split; [exact Hp|].
  split; [cbn [startCamera gesture setGrowth growthRef]; lra|reflexivity].
Qed.

Lemma camera_unavailable_is_not_handled_witness :
  growthRef (gesture (run (startCamera Unsupported initial)
                          [Retry Granted; AnimationFrame false 0 None])) = 0.
Proof.
  assert (Hes : Forall afterSetup [Retry Granted; AnimationFrame false 0 None])
    by (repeat constructor).
  exact (proj1 (proj2 (proj2 (proj2 (proj2
    (camera_unavailable_is_not_handled initial
       [Retry Granted; AnimationFrame false 0 None]
       eq_refl eq_refl eq_refl Hes)))))).
Defined.

Lemma retry_starts_detection_witness :
  detecting (step (step (startCamera Denied (step initial (MediaPipeReady Denied)))
                        (Retry Granted))
                  (LoadedData false 0 (Some []))) = true.
Proof.
  exact (proj1 (proj2 (proj2
    (retry_starts_detection (step initial (MediaPipeReady Denied)) false 0 []
       eq_refl)))).
Defined.

End LifeCycle.

(** ** The shape field and the build states of a particle *)

Section ShapeBounds.
Import GLSL Rose Doc Terms.

Lemma mix_between a b t m : 0 <= t <= 1 -> 0 <= a <= m -> 0 <= b <= m -> 0 <= mix a b t <= m.
Proof.
  intros Ht Ha Hb; unfold mix; split.
  - apply Rplus_le_le_0_compat; apply Rmult_le_pos; lra.
  - assert (a * (1 - t) <= m * (1 - t)) by (apply Rmult_le_compat_r; lra).
    assert (b * t <= m * t) by (apply Rmult_le_compat_r; lra).
    lra.
Qed.

Lemma fade_unit f : 0 <= f <= 1 -> 0 <= f * f * (3.0 - 2.0 * f) <= 1.
Proof.
  intros Hf.
  assert (0 <= f * f) by (apply Rmult_le_pos; lra).
  assert (0 <= (1 - f) * (1 - f)) by (apply Rmult_le_pos; lra).
  assert (0 <= f * f * (3 - 2 * f)) by (apply Rmult_le_pos; lra).
  assert (0 <= (1 - f) * (1 - f) * (1 + 2 * f)) by (apply Rmult_le_pos; lra).
  replace (f * f * (3.0 - 2.0 * f)) with (1 - (1 - f) * (1 - f) * (1 + 2 * f)) by lra.
  replace (1 - (1 - f) * (1 - f) * (1 + 2 * f)) with (f * f * (3 - 2 * f)) at 1 by ring.
  split; lra.
Qed.

Lemma noise_range p : 0 <= noise p < 1.
Proof.
  unfold noise; cbn [x2 y2].
  set (i := {| x2 := floor (x2 p); y2 := floor (y2 p) |}).
  pose proof (hash_range i) as H00.
  pose proof (hash_range (add2 i {| x2 := 1.0; y2 := 0.0 |})) as H10.
  pose proof (hash_range (add2 i {| x2 := 0.0; y2 := 1.0 |})) as H01.
  pose proof (hash_range (add2 i {| x2 := 1.0; y2 := 1.0 |})) as H11.
  set (h00 := hash i) in *.
  set (h10 := hash (add2 i {| x2 := 1.0; y2 := 0.0 |})) in *.
  set (h01 := hash (add2 i {| x2 := 0.0; y2 := 1.0 |})) in *.
  set (h11 := hash (add2 i {| x2 := 1.0; y2 := 1.0 |})) in *.
  set (m := Rmax (Rmax h00 h10) (Rmax h01 h11)).
  assert (Hm : m < 1) by (unfold m; repeat apply Rmax_lub_lt; lra).
  assert (M00 : h00 <= m)
    by (unfold m; eapply Rle_trans; [apply Rmax_l|apply Rmax_l]).
  assert (M10 : h10 <= m)
    by (unfold m; eapply Rle_trans; [apply Rmax_r|apply Rmax_l]).
  assert (M01 : h01 <= m)
    by (unfold m; eapply Rle_trans; [apply Rmax_l|apply Rmax_r]).
  assert (M11 : h11 <= m)
    by (unfold m; eapply Rle_trans; [apply Rmax_r|apply Rmax_r]).
  pose proof (fract_range (x2 p)) as Fx; pose proof (fract_range (y2 p)) as Fy.
  pose proof (fade_unit (fract (x2 p)) ltac:(lra)) as Wx.
  pose proof (fade_unit (fract (y2 p)) ltac:(lra)) as Wy.
  set (wx := fract (x2 p) * fract (x2 p) * (3.0 - 2.0 * fract (x2 p))) in *.
  set (wy := fract (y2 p) * fract (y2 p) * (3.0 - 2.0 * fract (y2 p))) in *.
  pose proof (mix_between h00 h10 wx m Wx ltac:(lra) ltac:(lra)) as A.
  pose proof (mix_between h01 h11 wx m Wx ltac:(lra) ltac:(lra)) as B.
  pose proof (mix_between _ _ wy m Wy A B) as C.
  lra.
Qed.

(** The value noise of the shader is a fraction: like the hash it
    interpolates, it lies in [0, 1) at every point. *)
Theorem value_noise_is_a_fraction p : 0 <= hash p < 1 /\ 0 <= noise p < 1.
Proof. split; [apply hash_range|apply noise_range]. Qed.

Lemma surfaceNoise_bound u p : Rabs (surfaceNoise u p) <= 0.05 * Rabs (uDetail u).
Proof.
  unfold surfaceNoise.
  set (q := add2s _ _).
  pose proof (noise_range q) as Hn.
  rewrite !Rabs_mult, (Rabs_pos_eq (noise q)), (Rabs_pos_eq 0.05) by lra.
  pose proof (Rabs_pos (uDetail u)).
  assert (noise q * 0.05 <= 1 * 0.05) by (apply Rmult_le_compat_r; lra).
  assert (noise q * 0.05 * Rabs (uDetail u) <= 1 * 0.05 * Rabs (uDetail u))
    by (apply Rmult_le_compat_r; lra).
  lra.
Qed.

Lemma getTulipDisplacement_split u p :
  getTulipDisplacement u p = petalDisplacement u p + surfaceNoise u p.
Proof. unfold petalDisplacement; ring. Qed.

Lemma displacement_abs_bound u p :
  Rabs (getTulipDisplacement u p)
    <= 0.15 + Rabs (uOpenness u) + 0.05 * Rabs (uDetail u).
Proof.
  pose proof (surfaceNoise_bound u p) as Hn.
  rewrite getTulipDisplacement_split, petalDisplacement_eq.
  set (petals := sin ((azimuth p + polar p * uTwist u) * uPetalCount u)).
  pose proof (smoothstep_range 0.0 1.5 (1.5 - polar p)) as Hs.
  set (sm := smoothstep 0.0 1.5 (1.5 - polar p)) in *.
  assert (Hsin : Rabs petals <= 1) by (apply Rabs_le; apply SIN_bound).
  eapply Rle_trans; [apply Rabs_triang|].
  assert (Rabs (petals * 0.15 + sm * uOpenness u * petals)
          <= 0.15 + Rabs (uOpenness u)).
  { eapply Rle_trans; [apply Rabs_triang|].
    rewrite !Rabs_mult, (Rabs_pos_eq 0.15), (Rabs_pos_eq sm) by lra.
    pose proof (Rabs_pos (uOpenness u)); pose proof (Rabs_pos petals).
    assert (Rabs petals * 0.15 <= 1 * 0.15) by (apply Rmult_le_compat_r; lra).
    assert (sm * Rabs (uOpenness u) <= 1 * Rabs (uOpenness u))
      by (apply Rmult_le_compat_r; lra).
    assert (sm * Rabs (uOpenness u) * Rabs petals <= Rabs (uOpenness u) * 1).
    { apply Rmult_le_compat; try lra. apply Rmult_le_pos; lra. }
    lra. }
  lra.
Qed.

(** The head displacement is bounded by the amplitudes of its three terms:
    0.15 for the petal fold, |openness| for the bloom and 0.05 |detail| for
    the noise; it is finite for every petal count, and with petalCount = 0
    the petals vanish and only the surface noise is left. *)
Theorem head_displacement_is_bounded u p :
  Rabs (getTulipDisplacement u p)
    <= 0.15 + Rabs (uOpenness u) + 0.05 * Rabs (uDetail u)
  /\ (uPetalCount u = 0 ->
      getTulipDisplacement u p = surfaceNoise u p
      /\ Rabs (getTulipDisplacement u p) <= 0.05 * Rabs (uDetail u)).
Proof.
  split; [apply displacement_abs_bound|].
  intros H0.
  assert (E : getTulipDisplacement u p = surfaceNoise u p).
  { rewrite getTulipDisplacement_split, petalDisplacement_eq, H0.
    rewrite Rmult_0_r, sin_0; ring. }
  split; [exact E|].
  rewrite E; apply surfaceNoise_bound.
Qed.

Lemma head_displacement_is_bounded_witness :
  getTulipDisplacement
    {| uTime := 0; uPetalCount := 0; uTwist := 0.8; uOpenness := 0.6;
       uDetail := 0.5; uParticleSize := 0.022; uScanY := 10 |}
    {| vx := 1; vy := 1; vz := 0 |}
  = surfaceNoise
      {| uTime := 0; uPetalCount := 0; uTwist := 0.8; uOpenness := 0.6;
         uDetail := 0.5; uParticleSize := 0.022; uScanY := 10 |}
      {| vx := 1; vy := 1; vz := 0 |}.
Proof.
  exact (proj1 (proj2 (head_displacement_is_bounded
    {| uTime := 0; uPetalCount := 0; uTwist := 0.8; uOpenness := 0.6;
       uDetail := 0.5; uParticleSize := 0.022; uScanY := 10 |}
    {| vx := 1; vy := 1; vz := 0 |}) eq_refl)).
Defined.

End ShapeBounds.

Section BuildStates.
Import GLSL Rose Doc Terms.

Lemma smoothstep_above a : 1 <= a -> GLSL.smoothstep (-1) 1 a = 1.
Proof.
  intros Ha; unfold GLSL.smoothstep, clamp.
  assert (1 <= (a - -1) / (1 - -1)) by lra.
  rewrite Rmax_left by lra. rewrite Rmin_right by lra. ring.
Qed.

Lemma smoothstep_below a : a <= -1 -> GLSL.smoothstep (-1) 1 a = 0.
Proof.
  intros Ha; unfold GLSL.smoothstep, clamp.
  assert ((a - -1) / (1 - -1) <= 0) by lra.
  rewrite Rmax_right by lra. rewrite Rmin_left by lra. ring.
Qed.

Lemma mix3_ends c f t :
  (t = 1 -> mix3 c f t = f) /\ (t = 0 -> mix3 c f t = c).
Proof.
  destruct c as [cx cy cz], f as [fx fy fz]; unfold mix3, mix; cbn [vx vy vz].
  split; intros ->; f_equal; ring.
Qed.

Lemma ease_out_unit undefined_pow u p :
  0 <= 1.0 - pow undefined_pow (1.0 - activation undefined_pow u p) 4.0 <= 1.
Proof.
  pose proof (smoothstep_range (-1) 1
                (vy (finalPos undefined_pow u p) - uScanY u + (aRandom p - 0.5) * 2)) as Ha.
  rewrite <- activation_eq in Ha.
  rewrite pow_4 by lra.
  set (b := 1.0 - activation undefined_pow u p).
  assert (Hb : 0 <= b <= 1) by (unfold b; lra).
  pose proof (pow_le_1 b 4 Hb). lra.
Qed.

Lemma built_above undefined_pow u p :
  1 <= vy (finalPos undefined_pow u p) - uScanY u + (aRandom p - 0.5) * 2 ->
  activation undefined_pow u p = 1
  /\ vPosition (main undefined_pow u p) = finalPos undefined_pow u p.
Proof.
  intros Hd.
  assert (A : activation undefined_pow u p = 1)
    by (rewrite activation_eq; apply smoothstep_above; exact Hd).
  split; [exact A|].
  unfold main; cbn [vPosition]. apply (proj1 (mix3_ends _ _ _)).
  rewrite A, pow_4 by lra. replace (1.0 - 1) with 0 by lra. simpl; lra.
Qed.

Lemma hidden_below undefined_pow undefined_smoothstep mvz uColor coord u p :
  vy (finalPos undefined_pow u p) - uScanY u + (aRandom p - 0.5) * 2 <= -1 ->
  activation undefined_pow u p = 0
  /\ vPosition (main undefined_pow u p) = cornerPos (aRandom p)
  /\ Material.gl_PointSize undefined_pow undefined_smoothstep mvz u p = 0
  /\ Material.fragment undefined_pow undefined_smoothstep uColor coord
       (main undefined_pow u p) = None.
Proof.
  intros Hd.
  assert (A : activation undefined_pow u p = 0)
    by (rewrite activation_eq; apply smoothstep_below; exact Hd).
  split; [exact A|]. split; [|split].
  - unfold main; cbn [vPosition]. apply (proj2 (mix3_ends _ _ _)).
    rewrite A, pow_4 by lra. replace (1.0 - 0) with 1 by lra. simpl; lra.
  - unfold Material.gl_PointSize; cbv zeta; rewrite A; ring.
  - unfold Material.fragment; cbv zeta.
    destruct (gtb _ 0.5); [reflexivity|].
    unfold main; cbn [vProgress]; rewrite A.
    rewrite (proj2 (ltb_true 0 0.01)) by lra. reflexivity.
Qed.

(** The three build states of a particle, by its height over the scan
    plane with the seed's edge noise added: from 1 upwards it is built
    (activation 1, displayed exactly at its final position); down from -1
    it is hidden (activation 0, parked exactly at its spawn corner, with
    point size 0 and every fragment discarded); in all cases it is
    displayed on the segment from the spawn corner to the final position. *)
Theorem particle_build_states undefined_pow undefined_smoothstep mvz uColor coord u p :
  let d := vy (finalPos undefined_pow u p) - uScanY u + (aRandom p - 0.5) * 2 in
  let v := main undefined_pow u p in
  (1 <= d -> vProgress v = 1 /\ vPosition v = finalPos undefined_pow u p)
  /\ (d <= -1 ->
      vProgress v = 0
      /\ vPosition v = cornerPos (aRandom p)
      /\ Material.gl_PointSize undefined_pow undefined_smoothstep mvz u p = 0
      /\ Material.fragment undefined_pow undefined_smoothstep uColor coord v = None)
  /\ (exists t, 0 <= t <= 1
                /\ vPosition v
                   = mix3 (cornerPos (aRandom p)) (finalPos undefined_pow u p) t).
Proof.
  intros d v.
  split; [|split].
  - intros Hd; exact (built_above undefined_pow u p Hd).
  - intros Hd.
    exact (hidden_below undefined_pow undefined_smoothstep mvz uColor coord u p Hd).
  - exists (1.0 - pow undefined_pow (1.0 - activation undefined_pow u p) 4.0).
    split; [apply ease_out_unit|reflexivity].
Qed.

Lemma particle_build_states_witness :
  vProgress (main (fun _ _ => 0)
               {| uTime := 0; uPetalCount := 3; uTwist := 0; uOpenness := 0;
                  uDetail := 0; uParticleSize := 0.022; uScanY := -12 |}
               (particleAt 0 (-3) 0 0.5 1)) = 1.
Proof.
  refine (proj1 (proj1 (particle_build_states (fun _ _ => 0) (fun _ _ _ => 0) (-35)
                          {| vx := 0; vy := 0; vz := 0 |} {| x2 := 0.5; y2 := 0.5 |}
                          {| uTime := 0; uPetalCount := 3; uTwist := 0; uOpenness := 0;
                             uDetail := 0; uParticleSize := 0.022; uScanY := -12 |}
                          (particleAt 0 (-3) 0 0.5 1)) _)).
  rewrite (shape_height_fixed (fun _ _ => 0) _ (particleAt 0 (-3) 0 0.5 1))
    by (cbn [aType aDirection particleAt vy]; lra).
  cbn [uScanY aRandom particleAt position vy]; lra.
Defined.

End BuildStates.

(** ** The generated flower *)

Section Geometry.
Import GLSL Rose Doc Terms.

Lemma geometry_members rnd p :
  In p (geometry rnd) <->
  (exists i, (i < flowerCount)%nat /\ p = flowerParticle rnd i)
  \/ (exists i, (i < stemCount)%nat /\ p = stemParticle rnd i)
  \/ (exists l i, (l < leaves)%nat /\ (i < ptsPerLeaf)%nat /\ p = leafParticle rnd l i).
Proof.
  unfold geometry; rewrite !in_app_iff, in_flat_map, !in_map_iff.
  split.
  - intros [(i & <- & Hi) | [(i & <- & Hi) | (l & Hl & Hp)]].
    + left; exists i; apply in_seq in Hi; split; [lia|reflexivity].
    + right; left; exists i; apply in_seq in Hi; split; [lia|reflexivity].
    + right; right. apply in_map_iff in Hp as (i & <- & Hi).
      apply in_seq in Hl; apply in_seq in Hi.
      exists l, i; repeat split; lia.
  - intros [(i & Hi & ->) | [(i & Hi & ->) | (l & i & Hl & Hi & ->)]].
    + left; exists i; split; [reflexivity|apply in_seq; lia].
    + right; left; exists i; split; [reflexivity|apply in_seq; lia].
    + right; right; exists l; split; [apply in_seq; lia|].
      apply in_map_iff; exists i; split; [reflexivity|apply in_seq; lia].
Qed.

Lemma normalize_height_unit v : Rabs (vy (normalize v)) <= 1.
Proof.
  unfold normalize; cbn [vy].
  set (q := vx v * vx v + vy v * vy v + vz v * vz v).
  assert (Hq : 0 <= q).
  { pose proof (Rle_0_sqr (vx v)); pose proof (Rle_0_sqr (vy v));
      pose proof (Rle_0_sqr (vz v)). unfold Rsqr in *; unfold q; lra. }
  assert (Hle : Rabs (vy v) <= length3 v).
  { unfold length3; fold q. rewrite <- sqrt_Rsqr_abs.
    apply sqrt_le_1_alt. unfold Rsqr, q.
    pose proof (Rle_0_sqr (vx v)); pose proof (Rle_0_sqr (vz v)).
    unfold Rsqr in *; lra. }
  destruct (Req_dec_T (length3 v) 0) as [E|E].
  - rewrite E; unfold Rdiv; rewrite Rinv_0, Rmult_0_r, Rabs_R0; lra.
  - assert (0 < length3 v).
    { pose proof (Rabs_pos (vy v)).
      destruct (Rle_lt_or_eq_dec 0 (length3 v)); [lra|assumption|congruence]. }
    unfold Rdiv; rewrite Rabs_mult, (Rabs_pos_eq (/ length3 v))
      by (left; apply Rinv_0_lt_compat; assumption).
    apply Rmult_le_reg_r with (length3 v); [assumption|].
    rewrite Rmult_assoc, Rinv_l by assumption. lra.
Qed.

(** The raw height of head point [i], between -1 and 1. *)
Lemma flower_yRaw i :
  (i < flowerCount)%nat ->
  -1 < (INR i * (2 / INR flowerCount) - 1) + (2 / INR flowerCount) / 2 < 1.
Proof.
  intros Hi.
  assert (HS : INR i + 1 <= INR flowerCount)
    by (rewrite <- S_INR; apply le_INR; lia).
  pose proof (pos_INR i) as H0.
  set (N := INR flowerCount) in *.
  assert (HN : 0 < N) by lra.
  assert (Ho : 0 < 2 / N) by (apply Rdiv_lt_0_compat; lra).
  assert (E : N * (2 / N) = 2) by (field; lra).
  set (o := 2 / N) in *.
  assert (INR i * o <= (N - 1) * o) by (apply Rmult_le_compat_r; lra).
  assert (0 <= INR i * o) by (apply Rmult_le_pos; lra).
  lra.
Qed.

Lemma flowerParticle_basics rnd i :
  (i < flowerCount)%nat ->
  -1 < vy (position (flowerParticle rnd i)) < 3
  /\ aType (flowerParticle rnd i) = 0
  /\ aRandom (flowerParticle rnd i) = rnd i.
Proof.
  intros Hi. pose proof (flower_yRaw i Hi) as Hy.
  unfold flowerParticle; cbn [position aType aRandom vy].
  repeat split; lra.
Qed.

(** The head points lie on the unit sphere stretched to twice its height
    and lifted by 1: x^2 + ((y - 1) / 2)^2 + z^2 = 1, with y strictly
    between -1 and 3; they carry type 0 and their own position as
    direction. *)
Theorem head_points_on_the_stretched_sphere rnd i :
  (i < flowerCount)%nat ->
  let p := flowerParticle rnd i in
  vx (position p) * vx (position p)
  + ((vy (position p) - 1) / 2) * ((vy (position p) - 1) / 2)
  + vz (position p) * vz (position p) = 1
  /\ -1 < vy (position p) < 3
  /\ aType p = 0
  /\ aDirection p = position p
  /\ aRandom p = rnd i.
Proof.
  intros Hi p.
  pose proof (flower_yRaw i Hi) as Hy.
  unfold p, flowerParticle; cbn [position aType aDirection aRandom vx vy vz].
  set (yRaw := (INR i * (2 / INR flowerCount) - 1) + (2 / INR flowerCount) / 2) in *.
  set (phi := INR ((i + 1) mod flowerCount) * (PI * (3 - sqrt 5))).
  assert (Hr : 0 <= 1 - yRaw ^ 2) by (simpl; nra).
  pose proof (sqrt_sqrt _ Hr) as Hs.
  pose proof (sin2_cos2 phi) as Ht; unfold Rsqr in Ht.
  set (r := sqrt (1 - yRaw ^ 2)) in *.
  split; [|split; [lra|split; [lra|split; reflexivity]]].
  replace (cos phi * r * (cos phi * r)
           + (yRaw * 2.0 + 1.0 - 1) / 2 * ((yRaw * 2.0 + 1.0 - 1) / 2)
           + sin phi * r * (sin phi * r))
    with ((sin phi * sin phi + cos phi * cos phi) * (r * r) + yRaw * yRaw) by lra.
  rewrite Ht, Hs; simpl; ring.
Qed.

Lemma flowerCount_pos : (0 < flowerCount)%nat.
Proof. apply Nat.ltb_lt; vm_compute; reflexivity. Qed.

Lemma head_points_on_the_stretched_sphere_witness :
  aType (flowerParticle (fun _ => 0) 0) = 0.
Proof.
  exact (proj1 (proj2 (proj2
    (head_points_on_the_stretched_sphere (fun _ => 0) 0%nat flowerCount_pos)))).
Defined.

Lemma stem_fraction i :
  (i < stemCount)%nat -> 0 <= INR i / INR stemCount < 1.
Proof.
  intros Hi.
  assert (HS : INR i + 1 <= INR stemCount)
    by (rewrite <- S_INR; apply le_INR; lia).
  pose proof (pos_INR i) as H0.
  split; [apply Rmult_le_pos; [lra|left; apply Rinv_0_lt_compat; lra]|].
  apply Rmult_lt_reg_r with (INR stemCount); [lra|].
  unfold Rdiv; rewrite Rmult_assoc, Rinv_l by lra. lra.
Qed.

Lemma stemParticle_basics rnd i :
  (i < stemCount)%nat ->
  -8 < vy (position (stemParticle rnd i)) <= -1
  /\ vy (aDirection (stemParticle rnd i)) = 0.
Proof.
  intros Hi. pose proof (stem_fraction i Hi) as Ht.
  unfold stemParticle, stemLength; cbn [position aDirection vy].
  split; [lra|reflexivity].
Qed.

(** The stem points sit on rings around the bent axis x = 0.1 sin(0.2 y):
    at height y in (-8, -1] the ring has radius 0.08 (1 - 0.1 t), between
    0.072 and 0.08, where t = (-1 - y) / 7; the direction is the unit radial
    vector of the point. *)
Theorem stem_points_on_tapering_rings rnd i :
  (i < stemCount)%nat ->
  let p := stemParticle rnd i in
  let y := vy (position p) in
  let r := 0.08 * (1 - 0.1 * ((-1 - y) / 7)) in
  -8 < y <= -1
  /\ 0.072 < r <= 0.08
  /\ vx (position p) = sin (y * 0.2) * 0.1 + r * vx (aDirection p)
  /\ vz (position p) = r * vz (aDirection p)
  /\ vx (aDirection p) * vx (aDirection p) + vz (aDirection p) * vz (aDirection p) = 1
  /\ vy (aDirection p) = 0.
Proof.
  intros Hi p y r.
  pose proof (stem_fraction i Hi) as Ht.
  unfold r, y, p, stemParticle, stemLength, stemRadius;
    cbn [position aDirection vx vy vz].
  set (t := INR i / INR stemCount) in *.
  set (theta := rnd (flowerCount + 2 * i)%nat * PI * 2).
  pose proof (sin2_cos2 theta) as Hc; unfold Rsqr in Hc.
  replace ((-1 - (-1.0 - t * 7.0)) / 7) with t by lra.
  repeat split; lra.
Qed.

Lemma stem_points_on_tapering_rings_witness :
  vy (aDirection (stemParticle (fun _ => 0) 0)) = 0.
Proof.
  exact (proj2 (proj2 (proj2 (proj2 (proj2
    (stem_points_on_tapering_rings (fun _ => 0) 0%nat stemCount_pos)))))).
Defined.

Lemma leaf_height rnd l i :
  unitRandom rnd -> (l < leaves)%nat ->
  -6 <= vy (position (leafParticle rnd l i)) < 0.5.
Proof.
  intros Hr Hl; unfold leafParticle; cbn [position vy].
  set (u := rnd _). assert (Hu : 0 <= u < 1) by apply Hr.
  assert (Hl' : 0 <= INR l <= 2).
  { split; [apply pos_INR|]. replace 2 with (INR 2) by (simpl; lra).
    apply le_INR; unfold leaves in Hl; lia. }
  lra.
Qed.

(** Every particle of the buffer: its seed, its kind and its final height. *)
Lemma geometry_final_height undefined_pow rnd cfg growthRef elapsed p :
  unitRandom rnd -> tame cfg -> In p (geometry rnd) ->
  0 <= aRandom p < 1
  /\ -8 < vy (finalPos undefined_pow
               (uniforms {| Rose.config := cfg; Rose.growthRef := growthRef |} elapsed) p)
      < 7.15.
Proof.
  intros Hr Ht Hin.
  set (u := uniforms _ elapsed).
  apply geometry_members in Hin
    as [(i & Hi & ->) | [(i & Hi & ->) | (l & i & Hl & Hi & ->)]].
  - destruct (flowerParticle_basics rnd i Hi) as (Hy & Hty & Hs).
    split; [rewrite Hs; apply Hr|].
    set (p := flowerParticle rnd i) in *.
    unfold finalPos, shape.
    rewrite (proj2 (ltb_true (aType p) 0.5)) by (rewrite Hty; lra).
    cbn [fst add3 scale3 vx vy vz].
    pose proof (displacement_abs_bound u (position p)) as Hd.
    assert (Hu : Rabs (uOpenness u) + 0.05 * Rabs (uDetail u) <= 4) by exact Ht.
    set (disp := getTulipDisplacement u (position p)) in *.
    pose proof (normalize_height_unit
                  {| vx := vx (position p); vy := vy (position p) * 0.5;
                     vz := vz (position p) |}) as Hn.
    set (ny := vy (normalize _)) in *.
    assert (Hprod : Rabs (ny * disp) <= 4.15).
    { rewrite Rabs_mult. pose proof (Rabs_pos ny); pose proof (Rabs_pos disp).
      assert (Rabs ny * Rabs disp <= 1 * Rabs disp) by (apply Rmult_le_compat_r; lra).
      lra. }
    assert (-4.15 <= ny * disp <= 4.15)
      by (unfold Rabs in Hprod; destruct (Rcase_abs (ny * disp)); lra).
    lra.
  - destruct (stemParticle_basics rnd i Hi) as (Hy & Hd).
    split; [cbn [aRandom stemParticle]; apply Hr|].
    rewrite shape_height_fixed; [lra| |exact Hd].
    cbn [aType stemParticle]; lra.
  - pose proof (leaf_height rnd l i Hr Hl) as Hy.
    split; [cbn [aRandom leafParticle]; apply Hr|].
    rewrite shape_height_fixed; [lra| |reflexivity].
    cbn [aType leafParticle]; lra.
Qed.

(** From growth 10/11 on, and so at growth 1, the whole flower stands:
    every particle of the buffer has activation 1 and is displayed exactly
    at its final position, for tame settings at any time. *)
Theorem whole_flower_built_near_growth_1 undefined_pow rnd cfg growth elapsed p :
  unitRandom rnd -> tame cfg -> In p (geometry rnd) -> 10 / 11 <= growth ->
  let props := {| Rose.config := cfg; Rose.growthRef := Some growth |} in
  vProgress (render undefined_pow props elapsed p) = 1
  /\ vPosition (render undefined_pow props elapsed p)
     = finalPos undefined_pow (uniforms props elapsed) p.
Proof.
  intros Hr Ht Hin Hg props.
  destruct (geometry_final_height undefined_pow rnd cfg (Some growth) elapsed p
              Hr Ht Hin) as [Hs Hy].
  fold props in Hy.
  apply (built_above undefined_pow (uniforms props elapsed) p).
  unfold uniforms at 2; cbn [uScanY Rose.growthRef props].
  rewrite scanY_linear; lra.
Qed.

Lemma whole_flower_built_near_growth_1_witness :
  vProgress (render (fun _ _ => 0)
               {| Rose.config := Scene.CINEMATIC_CONFIG; Rose.growthRef := Some 1 |}
               0 (stemParticle (fun _ => 0) 0)) = 1.
Proof.
  refine (proj1 (whole_flower_built_near_growth_1 (fun _ _ => 0) (fun _ => 0)
                   Scene.CINEMATIC_CONFIG 1 0 (stemParticle (fun _ => 0) 0)
                   _ _ (first_stem_particle_in_geometry _) _)).
  - intros k; lra.
  - unfold tame; cbn [Rose.openness Rose.detail Scene.CINEMATIC_CONFIG].
    rewrite !Rabs_pos_eq by lra; lra.
  - lra.
Defined.

(** Up to growth 0.038, and so at growth 0, nothing of the flower shows:
    every particle of the buffer has activation 0, sits at its spawn corner
    with point size 0, and all its fragments are discarded. *)
Theorem whole_flower_hidden_near_growth_0 undefined_pow undefined_smoothstep mvz
        uColor coord rnd cfg growth elapsed p :
  unitRandom rnd -> tame cfg -> In p (geometry rnd) -> growth <= 0.038 ->
  let props := {| Rose.config := cfg; Rose.growthRef := Some growth |} in
  vProgress (render undefined_pow props elapsed p) = 0
  /\ vPosition (render undefined_pow props elapsed p) = cornerPos (aRandom p)
  /\ Material.gl_PointSize undefined_pow undefined_smoothstep mvz
       (uniforms props elapsed) p = 0
  /\ Material.fragment undefined_pow undefined_smoothstep uColor coord
       (render undefined_pow props elapsed p) = None.
Proof.
  intros Hr Ht Hin Hg props.
  destruct (geometry_final_height undefined_pow rnd cfg (Some growth) elapsed p
              Hr Ht Hin) as [Hs Hy].
  fold props in Hy.
  apply (hidden_below undefined_pow undefined_smoothstep mvz uColor coord
                      (uniforms props elapsed) p).
  unfold uniforms at 2; cbn [uScanY Rose.growthRef props].
  rewrite scanY_linear; lra.
Qed.

Lemma whole_flower_hidden_near_growth_0_witness :
  vProgress (render (fun _ _ => 0)
               {| Rose.config := Scene.CINEMATIC_CONFIG; Rose.growthRef := Some 0 |}
               0 (stemParticle (fun _ => 0) 0)) = 0.
Proof.
  refine (proj1 (whole_flower_hidden_near_growth_0 (fun _ _ => 0) (fun _ _ _ => 0)
                   (-35) {| vx := 0; vy := 0; vz := 0 |} {| x2 := 0.5; y2 := 0.5 |}
                   (fun _ => 0) Scene.CINEMATIC_CONFIG 0 0
                   (stemParticle (fun _ => 0) 0)
                   _ _ (first_stem_particle_in_geometry _) _)).
  - intros k; lra.
  - unfold tame; cbn [Rose.openness Rose.detail Scene.CINEMATIC_CONFIG].
    rewrite !Rabs_pos_eq by lra; lra.
  - lra.
Defined.

(** The buffer holds 189,999 particles: 120,000 for the head, 30,000 for
    the stem and three blades of floor(40000 / 3) = 13,333, one short of
    the 190,000 the counts add up to; and each carries type 0, 1 or 2. *)
Theorem buffer_has_189999_particles rnd :
  length (geometry rnd) = 189999%nat
  /\ (forall p, In p (geometry rnd) -> aType p = 0 \/ aType p = 1 \/ aType p = 2).
Proof.
  split.
  - unfold geometry.
    rewrite !length_app, !length_map, !length_seq.
    unfold leaves; cbn [seq flat_map].
    rewrite !length_app, !length_map, !length_seq; cbn [length].
    apply Nat.eqb_eq; vm_compute; reflexivity.
  - intros p Hin.
    apply geometry_members in Hin
      as [(i & _ & ->) | [(i & _ & ->) | (l & i & _ & _ & ->)]];
      cbn [aType flowerParticle stemParticle leafParticle]; lra.
Qed.

Lemma buffer_has_189999_particles_witness :
  aType (stemParticle (fun _ => 0) 0) = 0
  \/ aType (stemParticle (fun _ => 0) 0) = 1
  \/ aType (stemParticle (fun _ => 0) 0) = 2.
Proof.
  exact (proj2 (buffer_has_189999_particles (fun _ => 0))
               (stemParticle (fun _ => 0) 0) (first_stem_particle_in_geometry _)).
Defined.

End Geometry.

(** ** The laser beams and the camera target *)

Section Stage.
Import GLSL Rose Doc Terms.

(** There are four beams, one from each top corner to the point of the
    axis at scan height; they all have the same length,
    sqrt(312.5 + (12.5 - scanY)^2), their mid points are at height
    (12.5 + scanY) / 2, and they show exactly while growth is below 0.99:
    without a growth ref growth counts as 1 and no beam shows. *)
Theorem four_equal_beams growthRef :
  let growth := match growthRef with Some g => g | None => 1 end in
  length (Beam.ConstructionZone growthRef) = 4%nat
  /\ (forall b, In b (Beam.ConstructionZone growthRef) ->
        Beam.scaleY b = sqrt (312.5 + (12.5 - scanY growth) * (12.5 - scanY growth))
        /\ vy (Beam.position b) = (12.5 + scanY growth) / 2
        /\ Rabs (vx (Beam.position b)) = 6.25
        /\ Rabs (vz (Beam.position b)) = 6.25
        /\ (Beam.visible b = true <-> growth < 0.99)).
Proof.
  intros growth; split; [reflexivity|].
  assert (G : match growthRef with Some g => g | None => 1.0 end = growth)
    by (unfold growth; destruct growthRef; [reflexivity|lra]).
  intros b Hb. unfold Beam.ConstructionZone, corners in Hb. cbn [map In] in Hb.
  assert (Hvis : forall start,
             Beam.visible (Beam.TrackingBeam start growthRef) = true <-> growth < 0.99).
  { intros start; unfold Beam.TrackingBeam; cbn [Beam.visible].
    rewrite G; apply ltb_true. }
  destruct Hb as [<- | [<- | [<- | [<- | []]]]];
    (split; [|split; [|split; [|split; [|apply Hvis]]]]);
    unfold Beam.TrackingBeam, Beam.distanceTo, Beam.lerpVectors, boxSize, scanY;
    cbn [Beam.scaleY Beam.position vx vy vz]; rewrite ?G;
    try (f_equal; lra); try lra;
    try (rewrite Rabs_pos_eq; lra); try (rewrite Rabs_left; lra).
Qed.

Lemma four_equal_beams_witness :
  Beam.visible (Beam.TrackingBeam {| vx := boxSize; vy := boxSize; vz := boxSize |}
                                  (Some 0.5)) = true.
Proof.
  refine (proj2 (proj2 (proj2 (proj2 (proj2
    (proj2 (four_equal_beams (Some 0.5))
       (Beam.TrackingBeam {| vx := boxSize; vy := boxSize; vz := boxSize |} (Some 0.5))
       (or_introl eq_refl)))))) _).
  lra.
Defined.

Lemma targetY_range growth : -9.8 <= CameraController.targetY growth <= 8.9.
Proof.
  unfold CameraController.targetY, JSMath.lerp; cases_R; lra.
Qed.

Lemma camera_frame_range growthRef y :
  -9.8 <= y <= 8.9 -> -9.8 <= CameraController.frame growthRef y <= 8.9.
Proof.
  intros Hy; unfold CameraController.frame.
  destruct growthRef as [growth|]; [|exact Hy].
  pose proof (targetY_range growth). unfold JSMath.lerp; lra.
Qed.

(** The camera's look-at height is pulled to the scan plane, except that it
    rests at 2 once growth passes 0.9 and at 5 below 0.05; the pull target
    always lies in [-9.8, 8.9], each frame closes 8% of the gap, and a
    height inside [-9.8, 8.9] stays inside whatever growth does. *)
Theorem camera_target_stays_in_range y (growths : list (option R)) :
  -9.8 <= y <= 8.9 ->
  -9.8 <= fold_left (fun h g => CameraController.frame g h) growths y <= 8.9
  /\ (forall growth,
        -9.8 <= CameraController.targetY growth <= 8.9
        /\ (0.9 < growth -> CameraController.targetY growth = 2)
        /\ (growth < 0.05 -> CameraController.targetY growth = 5)
        /\ (0.05 <= growth <= 0.9 -> CameraController.targetY growth = scanY growth)
        /\ forall h, CameraController.frame (Some growth) h
                     - CameraController.targetY growth
                     = 0.92 * (h - CameraController.targetY growth)).
Proof.
  intros Hy; split.
  - revert y Hy; induction growths as [|g gs IH]; intros y Hy; [exact Hy|].
    cbn [fold_left]. apply IH, camera_frame_range; exact Hy.
  - intros growth.
    split; [apply targetY_range|].
    split; [|split; [|split]].
    + intros Hg; unfold CameraController.targetY; cases_R; lra.
    + intros Hg; unfold CameraController.targetY; cases_R; lra.
    + intros Hg; unfold CameraController.targetY, scanY; cases_R; lra.
    + intros h; unfold CameraController.frame, JSMath.lerp; lra.
Qed.

Lemma camera_target_stays_in_range_witness :
  -9.8 <= fold_left (fun h g => CameraController.frame g h) [Some 0.5; Some 1; None] 0
       <= 8.9.
Proof.
  apply (proj1 (camera_target_stays_in_range 0 [Some 0.5; Some 1; None]
                  ltac:(lra))).
Defined.

End Stage.
